(** * odespy: solver lifecycle and stepping engine

    A shallow embedding of the solver code shown in [odespy/__init__.py]
    (the [ForwardEuler] and [AdamsBashforth2] classes, the sample of the
    [_parameters] registry, the [terminate] function of the decay example
    and the module-level doc-string patching loop),
    together with the parts of class [Solver] that this code calls.

    Python floats are IEEE binary64 numbers: they are modelled by Rocq's
    primitive floats.  Instance attributes live in a record that every
    method threads through a state-and-exception monad, dictionaries are
    finite maps, and arrays are lists updated by index. *)

From Stdlib Require Import ZArith Floats.PrimFloat Numbers.Cyclic.Int63.Uint63.
From Stdlib Require Import Floats.FloatAxioms Floats.SpecFloat Floats.FloatOps.
From stdpp Require Import base option list gmap strings.

Set Default Proof Using "Type".
Local Open Scope string_scope.
Local Open Scope list_scope.
Local Open Scope nat_scope.

(** ** Numbers *)

(** A solution snapshot [u[n]] is a float for a scalar ODE and an array of
    floats for a system.  The formulas of the package only add and subtract
    snapshots and multiply them by a scalar. *)
Class Snapshot (V : Type) := {
  vzero : V;
  vadd : V → V → V;
  vsub : V → V → V;
  vscale : float → V → V
}.

Declare Scope snapshot_scope.
Delimit Scope snapshot_scope with V.
Infix "+" := vadd : snapshot_scope.
Infix "-" := vsub : snapshot_scope.
Infix "*" := vscale : snapshot_scope.

#[export] Instance scalar_snapshot : Snapshot float := {
  vzero := 0%float;
  vadd := PrimFloat.add;
  vsub := PrimFloat.sub;
  vscale := PrimFloat.mul
}.

(** numpy arithmetic on one-dimensional arrays is element by element. *)
Fixpoint zip_floats (op : float → float → float) (a b : list float) : list float :=
  match a, b with
  | x :: a', y :: b' => op x y :: zip_floats op a' b'
  | _, _ => []
  end.

Definition system_snapshot (neq : nat) : Snapshot (list float) := {|
  vzero := replicate neq 0%float;
  vadd := zip_floats PrimFloat.add;
  vsub := zip_floats PrimFloat.sub;
  vscale := λ a, List.map (PrimFloat.mul a)
|}.

(** [float(z)] for a Python int. *)
Definition float_of_Z (z : Z) : float :=
  match z with
  | Zneg p => PrimFloat.opp (PrimFloat.of_uint63 (Uint63.of_Z (Zpos p)))
  | _ => PrimFloat.of_uint63 (Uint63.of_Z z)
  end.

(** ** Python values held by parameters *)

Inductive PyType :=
| t_int | t_float | t_bool | t_str | t_dict | t_list | t_tuple | t_callable.

Inductive Value :=
| VNone
| VInt (z : Z)
| VFloat (x : float)
| VBool (b : bool)
| VStr (s : string)
| VTuple (items : list Value)
| VList (items : list Value)
| VDict (items : list (string * Value))
| VCallable (name : string).

(** [isinstance(v, ty)]; [bool] is a subclass of [int], and the registry
    writes [type=callable] for values that must be callable. *)
Definition isinstance (v : Value) (ty : PyType) : bool :=
  match v, ty with
  | VInt _, t_int | VBool _, t_int | VBool _, t_bool => true
  | VFloat _, t_float => true
  | VStr _, t_str => true
  | VTuple _, t_tuple => true
  | VList _, t_list => true
  | VDict _, t_dict => true
  | VCallable _, t_callable => true
  | _, _ => false
  end.

(** The numeric reading of a value, for range checks. *)
Definition as_number (v : Value) : option float :=
  match v with
  | VInt z => Some (float_of_Z z)
  | VFloat x => Some x
  | VBool b => Some (if b then 1%float else 0%float)
  | _ => None
  end.

(** ** Exceptions *)

(** What a parameter check expected of the offending value. *)
Inductive Constraint :=
| ExpectedType (types : list PyType)
| ExpectedRange (lo hi : Value).

Inductive Exception :=
| UnknownParameterError (name : string)
| InvalidParameterValueError (name : string) (value : Value) (expected : Constraint)
| MissingRequiredParameterError (name : string)
| ValidationError (solver : string)
| AttributeError (attr : string)
| IndexError
| ValueError (msg : string)
| TypeError (msg : string)
| NameError (name : string)
| NotImplementedError (method : string).

Inductive Res (A : Type) :=
| Ok (a : A)
| Raise (e : Exception).
Arguments Ok {A} a.
Arguments Raise {A} e.

(** ** Methods as state transformers that may raise

    A method body runs on [self : S]; an exception leaves the attributes as
    they were when it was raised. *)
Definition M (S A : Type) : Type := S → Res A * S.

#[export] Instance M_ret {S} : MRet (M S) := λ A a s, (Ok a, s).
#[export] Instance M_bind {S} : MBind (M S) := λ A B k m s,
  match m s with
  | (Ok a, s') => k a s'
  | (Raise e, s') => (Raise e, s')
  end.

Definition raise {S A} (e : Exception) : M S A := λ s, (Raise e, s).
Definition get_self {S} : M S S := λ s, (Ok s, s).
Definition modify {S} (g : S → S) : M S unit := λ s, (Ok tt, g s).
Definition gets {S A} (p : S → A) : M S A := λ s, (Ok (p s), s).

(** [attr] reads an attribute that may not have been assigned yet. *)
Definition attr {S A} (name : string) (p : S → option A) : M S A := λ s,
  match p s with
  | Some a => (Ok a, s)
  | None => (Raise (AttributeError name), s)
  end.

(** [a[i]] for an index produced by the code (never negative). *)
Definition index {S A} (a : list A) (i : nat) : M S A :=
  match a !! i with
  | Some x => mret x
  | None => raise IndexError
  end.

(** ** The parameter registry

    One entry of the global [_parameters] dictionary: a description, the
    legal type (or tuple of types), and where given a default value and the
    two ends of the legal range. *)
Record ParameterSpec := {
  prm_help : string;
  prm_type : list PyType;
  prm_default : option Value;
  prm_range : option (Value * Value)
}.

Definition dquote : string := String (Ascii.ascii_of_nat 34) EmptyString.
Definition newline : string := String (Ascii.ascii_of_nat 10) EmptyString.

(** The three entries of [_parameters] spelled out in the package text. *)
Definition prm_f : ParameterSpec := {|
  prm_help := "Right-hand side f(u,t) defining the ODE";
  prm_type := [t_callable];
  prm_default := None;
  prm_range := None
|}.

Definition prm_f_kwargs : ParameterSpec := {|
  prm_help := "Extra keyword arguments to f: f(u, t, *f_args, **f_kwargs)";
  prm_type := [t_dict];
  prm_default := Some (VDict []);
  prm_range := None
|}.

Definition prm_theta : ParameterSpec := {|
  prm_help := "Weight in [0,1] used for" +:+ newline +:+ dquote +:+ "theta-rule"
              +:+ dquote +:+ " finite difference approx.";
  prm_type := [t_int; t_float];
  prm_default := Some (VFloat 0.5%float);
  prm_range := Some (VInt 0, VInt 1)
|}.

(** Modelled from the spec: the registry entries that the package text
    elides ([...]) but that the classes shown there list: the extra
    positional arguments of [f], the [complex_valued] flag, and the
    [start_method] of the multistep solvers, whose documented default is
    [RK2]. *)
Definition prm_f_args : ParameterSpec := {|
  prm_help := "Extra positional arguments to f: f(u, t, *f_args, **f_kwargs)";
  prm_type := [t_tuple; t_list];
  prm_default := Some (VTuple []);
  prm_range := None
|}.

Definition prm_complex_valued : ParameterSpec := {|
  prm_help := "True if f is complex valued";
  prm_type := [t_bool];
  prm_default := Some (VBool false);
  prm_range := None
|}.

Definition prm_start_method : ParameterSpec := {|
  prm_help := "Method for the first steps in multi-step solvers";
  prm_type := [t_str];
  prm_default := Some (VStr "RK2");
  prm_range := None
|}.

Definition _parameters : gmap string ParameterSpec :=
  <["f" := prm_f]> (<["f_kwargs" := prm_f_kwargs]> (<["theta" := prm_theta]>
  (<["f_args" := prm_f_args]> (<["complex_valued" := prm_complex_valued]>
  (<["start_method" := prm_start_method]> ∅))))).

(** ** Solver instances *)

(** Ghost record of what happened on an instance, in order: hooks entered
    (by qualified name), calls of [advance] with the step index [n] they
    started from, calls of [terminate] with their [step_no], and lines
    printed. *)
Inductive Event :=
| Called (qualname : string)
| Advance (n : nat)
| Terminate (step_no : nat)
| Printed (line : string).

(** The attributes of a solver instance.  [self_name] is the name of the
    instance's class, which is also what the code reads as
    [self.__name__]; [self_parameters] is the configuration, mirrored in
    Python by one attribute per parameter. *)
Inductive Instance (V : Type) := Build_Instance {
  self_name : string;
  self_parameters : gmap string Value;
  self_f : V → float → V;
  self_U0 : option V;
  self_u : list V;
  self_t : list float;
  self_n : nat;
  self_f_n : option V;
  self_f_n_1 : option V;
  self_starter : option (Instance V);
  self_trace : list Event
}.
Arguments Build_Instance {V}.
Arguments self_name {V}.
Arguments self_parameters {V}.
Arguments self_f {V}.
Arguments self_U0 {V}.
Arguments self_u {V}.
Arguments self_t {V}.
Arguments self_n {V}.
Arguments self_f_n {V}.
Arguments self_f_n_1 {V}.
Arguments self_starter {V}.
Arguments self_trace {V}.

Section Attributes.
Context {V : Type}.
Implicit Types s : Instance V.

Definition with_parameters (p : gmap string Value) s : Instance V :=
  Build_Instance (self_name s) p (self_f s) (self_U0 s) (self_u s) (self_t s)
    (self_n s) (self_f_n s) (self_f_n_1 s) (self_starter s) (self_trace s).
Definition with_U0 (x : option V) s : Instance V :=
  Build_Instance (self_name s) (self_parameters s) (self_f s) x (self_u s) (self_t s)
    (self_n s) (self_f_n s) (self_f_n_1 s) (self_starter s) (self_trace s).
Definition with_u (x : list V) s : Instance V :=
  Build_Instance (self_name s) (self_parameters s) (self_f s) (self_U0 s) x (self_t s)
    (self_n s) (self_f_n s) (self_f_n_1 s) (self_starter s) (self_trace s).
Definition with_t (x : list float) s : Instance V :=
  Build_Instance (self_name s) (self_parameters s) (self_f s) (self_U0 s) (self_u s) x
    (self_n s) (self_f_n s) (self_f_n_1 s) (self_starter s) (self_trace s).
Definition with_n (x : nat) s : Instance V :=
  Build_Instance (self_name s) (self_parameters s) (self_f s) (self_U0 s) (self_u s)
    (self_t s) x (self_f_n s) (self_f_n_1 s) (self_starter s) (self_trace s).
Definition with_f_n (x : option V) s : Instance V :=
  Build_Instance (self_name s) (self_parameters s) (self_f s) (self_U0 s) (self_u s)
    (self_t s) (self_n s) x (self_f_n_1 s) (self_starter s) (self_trace s).
Definition with_f_n_1 (x : option V) s : Instance V :=
  Build_Instance (self_name s) (self_parameters s) (self_f s) (self_U0 s) (self_u s)
    (self_t s) (self_n s) (self_f_n s) x (self_starter s) (self_trace s).
Definition with_starter (x : option (Instance V)) s : Instance V :=
  Build_Instance (self_name s) (self_parameters s) (self_f s) (self_U0 s) (self_u s)
    (self_t s) (self_n s) (self_f_n s) (self_f_n_1 s) x (self_trace s).
Definition with_trace (x : list Event) s : Instance V :=
  Build_Instance (self_name s) (self_parameters s) (self_f s) (self_U0 s) (self_u s)
    (self_t s) (self_n s) (self_f_n s) (self_f_n_1 s) (self_starter s) x.

(** Append one event to the instance's record. *)
Definition log (e : Event) : M (Instance V) unit :=
  modify (λ s, with_trace (self_trace s ++ [e]) s).

(** [self.starter.m(...)]: run a method on the starter instance. *)
Definition on_starter {A} (m : M (Instance V) A) : M (Instance V) A := λ s,
  match self_starter s with
  | None => (Raise (AttributeError "starter"), s)
  | Some st => let '(r, st') := m st in (r, with_starter (Some st') s)
  end.

(** Use the outcome of a call that does not touch [self]. *)
Definition lift {A} (r : Res A) : M (Instance V) A := λ s, (r, s).
End Attributes.

(** A solver class: its name, its parameter lists (those of the parent
    class included), and the three methods that [solve] dispatches on. *)
Record Class (V : Type) := {
  cls_name : string;
  _required_parameters : list string;
  _optional_parameters : list string;
  initialize_for_solve : M (Instance V) unit;
  validate_data : M (Instance V) bool;
  advance : M (Instance V) V
}.
Arguments cls_name {V}.
Arguments _required_parameters {V}.
Arguments _optional_parameters {V}.
Arguments initialize_for_solve {V}.
Arguments validate_data {V}.
Arguments advance {V}.

Definition parameter_names {V} (C : Class V) : list string :=
  _required_parameters C ++ _optional_parameters C.

(** ** Class [Solver]: configuration

    The classes of the package text inherit [set], [get],
    [set_initial_condition], [switch_to], [constant_time_step], [solve] and
    the base versions of the hooks from class [Solver]. *)
Section Solver.
Context {V : Type} `{!Snapshot V}.

(** The global registry, once every module has added its entries. *)
Variable registry : gmap string ParameterSpec.

(** The solver classes of the package, by name ([getattr(odespy, name)]). *)
Variable methods : string → option (Class V).

Implicit Types (s : Instance V) (C : Class V).

(** [lo <= v <= hi] on numbers. *)
Definition in_range (v lo hi : Value) : bool :=
  match as_number v, as_number lo, as_number hi with
  | Some x, Some a, Some b => PrimFloat.leb a x && PrimFloat.leb x b
  | _, _, _ => false
  end.

(** Modelled from the spec: the validation of one assigned value (the
    body of [Solver.set] is not in the package text).  The name must be
    one of the class's parameters and be registered; the value must have
    one of the accepted types and, where a range is declared, lie in it. *)
Definition check_value C (name : string) (v : Value) : Res unit :=
  if negb (bool_decide (name ∈ parameter_names C)) then
    Raise (UnknownParameterError name)
  else
    match registry !! name with
    | None => Raise (UnknownParameterError name)
    | Some spec =>
        if negb (existsb (isinstance v) (prm_type spec)) then
          Raise (InvalidParameterValueError name v (ExpectedType (prm_type spec)))
        else
          match prm_range spec with
          | Some (lo, hi) =>
              if in_range v lo hi then Ok tt
              else Raise (InvalidParameterValueError name v (ExpectedRange lo hi))
          | None => Ok tt
          end
    end.

(** Modelled from the spec: [set] validates and stores the
    keyword arguments one after the other; a rejected value leaves the
    earlier ones stored. *)
Fixpoint set C (kwargs : list (string * Value)) : M (Instance V) unit :=
  match kwargs with
  | [] => mret tt
  | (name, v) :: rest =>
      lift (check_value C name v);;
      modify (λ s, with_parameters (<[name := v]> (self_parameters s)) s);;
      set C rest
  end.



(** The default values of the parameters [names] that have one. *)
Definition defaults (names : list string) : gmap string Value :=
  foldr (λ name acc,
           match registry !! name ≫= prm_default with
           | Some v => <[name := v]> acc
           | None => acc
           end) ∅ names.

(** Modelled from the spec: the constructor [C(f, **kwargs)].  Every
    parameter of the class must be registered; the defaults are loaded,
    [f] is stored, and the keyword arguments go through [set]. *)
Definition construct C (fname : string) (f : V → float → V)
    (kwargs : list (string * Value)) : Res (Instance V) :=
  match List.find (λ name, negb (bool_decide (is_Some (registry !! name))))
                  (parameter_names C) with
  | Some name => Raise (UnknownParameterError name)
  | None =>
      let s0 := Build_Instance (cls_name C)
                  (<["f" := VCallable fname]> (defaults (parameter_names C)))
                  f None [] [] 0 None None None [] in
      match set C kwargs s0 with
      | (Ok _, s) => Ok s
      | (Raise e, _) => Raise e
      end
  end.

(** Modelled from the spec: [set_initial_condition(U0)]. *)
Definition set_initial_condition (U0 : V) : M (Instance V) unit :=
  modify (with_U0 (Some U0)).

Definition name_of_f s : string :=
  match self_parameters s !! "f" with
  | Some (VCallable fname) => fname
  | _ => ""
  end.

(** Modelled from the spec: [switch_to(method_name, **overrides)] makes a
    new instance of the named class around the same [f], copies the
    current value of every parameter that the target class also has, and
    then applies the overrides through [set]. *)
Definition switch_to s (method_name : string)
    (overrides : list (string * Value)) : Res (Instance V) :=
  match methods method_name with
  | None => Raise (ValueError method_name)
  | Some C' =>
      match construct C' (name_of_f s) (self_f s) [] with
      | Raise e => Raise e
      | Ok new =>
          let carried :=
            filter (λ kv, kv.1 ∈ parameter_names C') (self_parameters s) in
          match set C' overrides
                  (with_parameters (carried ∪ self_parameters new) new) with
          | (Ok _, new') => Ok new'
          | (Raise e, _) => Raise e
          end
      end
  end.

(** ** Class [Solver]: the lifecycle of [solve] *)

(** [t[1:] - t[:-1]], the steps between consecutive time points. *)
Definition time_steps (t : list float) : list float :=
  zip_with (λ a b, PrimFloat.sub b a) t (tail t).

(** Modelled from the spec: [constant_time_step()], the utility method of
    class [Solver] that tells whether the spacing of the time points is
    constant: every step equals the first one. *)
Definition uniform (t : list float) : bool :=
  match time_steps t with
  | [] => true
  | dt :: steps => forallb (PrimFloat.eqb dt) steps
  end.

Definition constant_time_step : M (Instance V) bool :=
  s ← get_self;
  mret (uniform (self_t s)).

Fixpoint ordered (lt : float → float → bool) (t : list float) : bool :=
  match t with
  | a :: (b :: _) as rest => lt a b && ordered lt rest
  | _ => true
  end.

(** Strictly increasing or strictly decreasing. *)
Definition monotonic (t : list float) : bool :=
  ordered PrimFloat.ltb t || ordered (λ a b, PrimFloat.ltb b a) t.

(** Modelled from the spec: [Solver.initialize_for_solve] allocates the
    storage for the solution, one slot per time point, and loads the
    initial condition into the first slot. *)
Definition Solver_initialize_for_solve : M (Instance V) unit :=
  log (Called "Solver.initialize_for_solve");;
  U0 ← attr "U0" self_U0;
  s ← get_self;
  let u := replicate (length (self_t s)) vzero in
  match u with
  | [] => raise IndexError
  | _ :: _ => modify (with_u (<[0 := U0]> u))
  end.

(** Modelled from the spec: [Solver.validate_data] checks that the time
    points are monotonic. *)
Definition Solver_validate_data : M (Instance V) bool :=
  log (Called "Solver.validate_data");;
  s ← get_self;
  mret (monotonic (self_t s)).

Definition Solver_advance : M (Instance V) V :=
  raise (NotImplementedError "advance").

(** Modelled from the spec: the parameters of class [Solver] (those that
    [get()] lists for an instance of a plain subclass). *)
Definition Solver_required_parameters : list string := ["f"].
Definition Solver_optional_parameters : list string :=
  ["f_args"; "f_kwargs"; "complex_valued"].

Definition Solver : Class V := {|
  cls_name := "Solver";
  _required_parameters := Solver_required_parameters;
  _optional_parameters := Solver_optional_parameters;
  initialize_for_solve := Solver_initialize_for_solve;
  validate_data := Solver_validate_data;
  advance := Solver_advance
|}.

(** The user's [terminate(u, t, step_no)]. *)
Definition TerminateFn : Type := list V → list float → nat → bool.

(** [self.u, self.t = self.u[:k], self.t[:k]] *)
Definition truncate (k : nat) (s : Instance V) : Instance V :=
  with_t (take k (self_t s)) (with_u (take k (self_u s)) s).

(** Modelled from the spec: the time loop of [solve].  Each pass computes
    [u[n+1]] with the class's [advance], stores it, moves [n] on, and
    then asks [terminate]; on a true answer the arrays are cut after the
    new entry and the loop ends. *)
Fixpoint time_loop C (terminate : option TerminateFn) (steps : nat)
    : M (Instance V) unit :=
  match steps with
  | 0 => mret tt
  | S steps' =>
      n ← gets self_n;
      log (Advance n);;
      unew ← advance C;
      modify (λ s, with_n (n + 1) (with_u (<[n + 1 := unew]> (self_u s)) s));;
      match terminate with
      | None => time_loop C terminate steps'
      | Some term =>
          log (Terminate (n + 1));;
          s ← get_self;
          if term (self_u s) (self_t s) (n + 1) then modify (truncate (n + 2))
          else time_loop C terminate steps'
      end
  end.

(** Modelled from the spec: [solve(time_points, terminate)]. *)
Definition solve C (time_points : list float) (terminate : option TerminateFn)
    : M (Instance V) (list V * list float) :=
  modify (λ s, with_n 0 (with_t time_points s));;
  initialize_for_solve C;;
  valid ← validate_data C;
  if negb valid then
    name ← gets self_name;
    raise (ValidationError name)
  else
    time_loop C terminate (length time_points - 1);;
    s ← get_self;
    mret (self_u s, self_t s).

(** [self.solve(...)] on an instance whose class is looked up by name. *)
Definition solve_method (time_points : list float)
    (terminate : option TerminateFn) : M (Instance V) (list V * list float) :=
  name ← gets self_name;
  match methods name with
  | Some C => solve C time_points terminate
  | None => raise (AttributeError "solve")
  end.

(** ** Class [ForwardEuler] *)

(** [[
    def advance(self):
        u, f, n, t = self.u, self.f, self.n, self.t
        dt = t[n+1] - t[n]
        unew = u[n] + dt*f(u[n], t[n])
        return unew
    ]] *)
Definition ForwardEuler_advance : M (Instance V) V :=
  s ← get_self;
  let '(u, f, n, t) := (self_u s, self_f s, self_n s, self_t s) in
  t_n1 ← index t (n + 1);
  t_n ← index t n;
  let dt := (t_n1 - t_n)%float in
  u_n ← index u n;
  let unew := (u_n + dt * f u_n t_n)%V in
  mret unew.

Definition ForwardEuler : Class V := {|
  cls_name := "ForwardEuler";
  _required_parameters := Solver_required_parameters;
  _optional_parameters := Solver_optional_parameters;
  initialize_for_solve := Solver_initialize_for_solve;
  validate_data := Solver_validate_data;
  advance := ForwardEuler_advance
|}.

(** ** Class [AdamsBashforth2] *)

(** [_optional_parameters = Solver._optional_parameters + ['start_method',]] *)
Definition AdamsBashforth2_optional_parameters : list string :=
  Solver_optional_parameters ++ ["start_method"].

(** [[
    def initialize_for_solve(self):
        # New solver instance for first step
        self.starter = self.switch_to(self.start_method)
        Solver.initialize_for_solve(self)
    ]] *)
Definition AdamsBashforth2_initialize_for_solve : M (Instance V) unit :=
  log (Called "AdamsBashforth2.initialize_for_solve");;
  start_method ← attr "start_method" (λ s, self_parameters s !! "start_method");
  s ← get_self;
  starter ← lift (match start_method with
                  | VStr name => switch_to s name []
                  | _ => Raise (ValueError "start_method")
                  end);
  modify (with_starter (Some starter));;
  Solver_initialize_for_solve.

(** [[
    def validate_data(self):
        if not self.constant_time_step():
            print '%s must have constant time step' % self.__name__
            return False
        else:
            return True
    ]] *)
Definition AdamsBashforth2_validate_data : M (Instance V) bool :=
  log (Called "AdamsBashforth2.validate_data");;
  constant ← constant_time_step;
  if negb constant then
    name ← gets self_name;
    log (Printed (name +:+ " must have constant time step"));;
    mret false
  else
    mret true.

(** [[
    def advance(self):
        u, f, n, t = self.u, self.f, self.n, self.t

        if n >= 1:
            dt = t[n+1] - t[n]  # must be constant
            self.f_n = f(u[n], t[n])
            unew = u[n] + dt/2.*(3*self.f_n - self.f_n_1)
            self.f_n_1 = self.f_n
        else:
            # User-specified method for the first step
            self.starter.set_initial_condition(u[n])
            time_points = [t[n], t[n+1]]
            u_starter, t_starter = self.starter.solve(time_points)
            unew = u_starter[-1]
            self.f_n_1 = f(u[0], t[0])

        return unew
    ]] *)
Definition AdamsBashforth2_advance : M (Instance V) V :=
  s ← get_self;
  let '(u, f, n, t) := (self_u s, self_f s, self_n s, self_t s) in
  if bool_decide (1 ≤ n) then
    t_n1 ← index t (n + 1);
    t_n ← index t n;
    let dt := (t_n1 - t_n)%float in
    u_n ← index u n;
    modify (with_f_n (Some (f u_n t_n)));;
    f_n ← attr "f_n" self_f_n;
    f_n_1 ← attr "f_n_1" self_f_n_1;
    let unew := (u_n + (dt / 2)%float * (3%float * f_n - f_n_1))%V in
    f_n ← attr "f_n" self_f_n;
    modify (with_f_n_1 (Some f_n));;
    mret unew
  else
    _ ← attr "starter" self_starter;
    u_n ← index u n;
    on_starter (set_initial_condition u_n);;
    t_n ← index t n;
    t_n1 ← index t (n + 1);
    let time_points := [t_n; t_n1] in
    '(u_starter, t_starter) ← on_starter (solve_method time_points None);
    unew ← index u_starter (length u_starter - 1);
    u_0 ← index u 0;
    t_0 ← index t 0;
    modify (with_f_n_1 (Some (f u_0 t_0)));;
    mret unew.

Definition AdamsBashforth2 : Class V := {|
  cls_name := "AdamsBashforth2";
  _required_parameters := Solver_required_parameters;
  _optional_parameters := AdamsBashforth2_optional_parameters;
  initialize_for_solve := AdamsBashforth2_initialize_for_solve;
  validate_data := AdamsBashforth2_validate_data;
  advance := AdamsBashforth2_advance
|}.

End Solver.

(** ** Solver objects in a store

    Python variables hold references.  A store maps object identities to
    instances, so that two variables may or may not denote the same
    solver. *)
Section Store.
Context {V : Type} `{!Snapshot V}.
Variable registry : gmap string ParameterSpec.
Variable methods : string → option (Class V).


End Store.

(** ** Module level: patching the doc strings

    [[
    class_, doc_str, classname = None, None, None
    classnames = [name for name, obj in locals().items() \
                   if inspect.isclass(obj)]

    toc = []
    for classname in classnames:
        class_ = eval(classname)
        doc_str = getattr(class_, '__doc__')
        setattr(class_, '__doc__',
                doc_str + table_of_parameters(class_))
        if hasattr(class_, 'quick_description'):
            toc.append((classname, getattr(class_, 'quick_description')))

    __doc__ =  __doc__ + typeset_toc(toc) + __tutorial__

    del class_, doc_str, classname, classnames, toc, typeset_toc, \
        table_of_parameters, name, obj, inspect
    ]] *)

(** What a name of the module is bound to: a class object, by identity, or
    anything else (a function, a module, a string, [None], ...). *)
Inductive Binding :=
| ClassRef (id : nat)
| Other.

(** The two attributes of a class object that the loop touches.  A class
    without a doc string has [__doc__ = None]; [quick_description] is what
    [getattr] finds on the class, inherited or not. *)
Record ClassObject := {
  cls_doc : option string;
  quick_description : option string
}.

Record Module := {
  namespace : gmap string Binding;
  classes : gmap nat ClassObject;
  module_doc : string
}.

Section DocStrings.
(** The two helpers come from the star imports; their code is not part of
    this file. *)
Variable table_of_parameters : ClassObject → string.
Variable typeset_toc : list (string * string) → string.
Variable __tutorial__ : string.

Definition inspect_isclass (obj : Binding) : bool :=
  match obj with
  | ClassRef _ => true
  | Other => false
  end.

(** One pass of the [for] loop, on the class objects and [toc]. *)
Definition patch_class (ns : gmap string Binding) (classname : string)
    (st : gmap nat ClassObject * list (string * string))
    : Res (gmap nat ClassObject * list (string * string)) :=
  let '(heap, toc) := st in
  match ns !! classname with
  | None => Raise (NameError classname)
  | Some Other => Raise (AttributeError "__doc__")
  | Some (ClassRef id) =>
      match heap !! id with
      | None => Raise (NameError classname)
      | Some class_ =>
          match cls_doc class_ with
          | None => Raise (TypeError "unsupported operand type(s) for +")
          | Some doc_str =>
              let class_' := {| cls_doc := Some (doc_str +:+ table_of_parameters class_);
                                quick_description := quick_description class_ |} in
              let heap' := <[id := class_']> heap in
              match quick_description class_' with
              | Some qd => Ok (heap', toc ++ [(classname, qd)])
              | None => Ok (heap', toc)
              end
          end
      end
  end.

Fixpoint patch_classes (ns : gmap string Binding) (classnames : list string)
    (st : gmap nat ClassObject * list (string * string))
    : Res (gmap nat ClassObject * list (string * string)) :=
  match classnames with
  | [] => Ok st
  | classname :: rest =>
      match patch_class ns classname st with
      | Ok st' => patch_classes ns rest st'
      | Raise e => Raise e
      end
  end.

Definition helper_names : list string :=
  ["class_"; "doc_str"; "classname"; "classnames"; "toc"; "typeset_toc";
   "table_of_parameters"; "name"; "obj"; "inspect"].

(** [del name1, name2, ...]: a name that is not bound raises. *)
Fixpoint del (names : list string) (ns : gmap string Binding)
    : Res (gmap string Binding) :=
  match names with
  | [] => Ok ns
  | name :: rest =>
      match ns !! name with
      | Some _ => del rest (delete name ns)
      | None => Raise (NameError name)
      end
  end.

(** The module-level statements after the star imports.  The loop
    variables are bound to [Other] where they are first assigned; their
    later values are not tracked, since none of them is read through
    [eval] and all of them are deleted in the end. *)
Definition update_doc_strings (m : Module) : Res (Module * list (string * string)) :=
  let ns1 := <["classname" := Other]> (<["doc_str" := Other]>
             (<["class_" := Other]> (namespace m))) in
  let items := map_to_list ns1 in
  let classnames := (filter (λ item, inspect_isclass item.2) items).*1 in
  let ns2 := <["classnames" := Other]> (<["obj" := Other]> (<["name" := Other]> ns1)) in
  let ns3 := <["toc" := Other]> ns2 in
  match patch_classes ns3 classnames (classes m, []) with
  | Raise e => Raise e
  | Ok (heap, toc) =>
      let doc := module_doc m +:+ typeset_toc toc +:+ __tutorial__ in
      match del helper_names ns3 with
      | Raise e => Raise e
      | Ok ns4 => Ok ({| namespace := ns4; classes := heap; module_doc := doc |}, toc)
      end
  end.
End DocStrings.

(** ** User code of the package text: [terminate] of the decay example *)

(** [[
    tol = 0.001  # tolerance for terminating the simulation

    def terminate(u, t, step_no):
        # Most recent solution is in u[step_no] at time t[step_no]
        if abs(u[step_no]) <= tol:
            return True
        else:
            return False
    ]] *)
Definition terminate_decay (tol : float) (u : list float) (t : list float)
    (step_no : nat) : Res bool :=
  match u !! step_no with
  | Some x => if PrimFloat.leb (PrimFloat.abs x) tol then Ok true else Ok false
  | None => Raise IndexError
  end.

(** ** Vocabulary of the statements *)

Section Vocabulary.
Context {V : Type} `{!Snapshot V}.

(** What [m] passes of the time loop add to the record of an instance that
    starts them at step [n]. *)
Definition loop_events (terminate : option (@TerminateFn V)) (n m : nat) : list Event :=
  flat_map (λ i, Advance i :: match terminate with
                              | Some _ => [Terminate (i + 1)]
                              | None => []
                              end) (seq n m).

(** The answer of [terminate], when there is one to ask. *)
Definition asks (terminate : option (@TerminateFn V)) (u : list V) (t : list float)
    (step_no : nat) : bool :=
  match terminate with
  | Some term => term u t step_no
  | None => false
  end.

(** The array [u] as it stood when step [k] had just been stored: the
    entries up to [k] are those of the final array, the later slots still
    hold what the allocation [u0] put there. *)
Definition seen (u u0 : list V) (k : nat) : list V :=
  take (k + 1) u ++ drop (k + 1) u0.

(** The contract of a step advancer, relative to what the class keeps in
    its own attributes ([Inv]): positioned at a step [n] that has a next
    time point, [advance] returns a value and leaves [u], [t], [n] and the
    record as they were; [Inv] holds again once the value is stored and [n]
    has moved on. *)
Definition StepAdvancer (C : Class V) (Inv : Instance V → Prop) : Prop :=
  (∀ s tr, Inv s → Inv (with_trace tr s)) ∧
  ∀ s, Inv s → self_n s + 1 < length (self_t s) →
       length (self_u s) = length (self_t s) →
    ∃ unew s', advance C s = (Ok unew, s') ∧
      self_u s' = self_u s ∧ self_t s' = self_t s ∧ self_n s' = self_n s ∧
      self_trace s' = self_trace s ∧
      Inv (with_n (self_n s + 1) (with_u (<[self_n s + 1 := unew]> (self_u s')) s')).

(** A class that takes both hooks from class [Solver] unchanged. *)
Definition inherits_hooks (C : Class V) : Prop :=
  initialize_for_solve C = Solver_initialize_for_solve ∧
  validate_data C = Solver_validate_data.
(** The instance when the time loop starts: the time points are stored,
    [n] is 0, the storage is allocated with the initial condition in its
    first slot, and both hooks have been entered. *)
Definition prepared (hooks : list Event) (s : Instance V) (tp : list float) (U0 : V) : Instance V :=
  with_trace (self_trace s ++ hooks)
    (with_u (<[0 := U0]> (replicate (length tp) vzero)) (with_n 0 (with_t tp s))).

Definition Solver_hooks : list Event :=
  [Called "Solver.initialize_for_solve"; Called "Solver.validate_data"].


(** The instance that [switch_to] makes of class [C'] when nothing is
    overridden: the defaults of [C'], under the values that [s] holds for
    the parameters of [C']. *)
Definition new_instance (registry : gmap string ParameterSpec) (C' : Class V)
    (s : Instance V) : Instance V :=
  Build_Instance (cls_name C')
    (filter (λ kv, kv.1 ∈ parameter_names C') (self_parameters s)
     ∪ <["f" := VCallable (name_of_f s)]> (defaults registry (parameter_names C')))
    (self_f s) None [] [] 0 None None None [].

Definition AdamsBashforth2_hooks : list Event :=
  [Called "AdamsBashforth2.initialize_for_solve";
   Called "Solver.initialize_for_solve";
   Called "AdamsBashforth2.validate_data"].

(** [u[n] + dt/2.*(3*f(u[n], t[n]) - f(u[n-1], t[n-1]))] with
    [dt = t[n+1] - t[n]]; [u_p] and [t_p] are [u[n-1]] and [t[n-1]]. *)
Definition AdamsBashforth2_formula (f : V → float → V) (u_n u_p : V)
    (t_n1 t_n t_p : float) : V :=
  (u_n + ((t_n1 - t_n) / 2)%float * (3%float * f u_n t_n - f u_p t_p))%V.

(** Entry [n + 1] of [u] is what the formula gives from entries [n] and
    [n - 1]. *)
Definition follows_formula (f : V → float → V) (u : list V) (t : list float)
    (n : nat) : Prop :=
  ∃ u_n u_p t_n1 t_n t_p,
    u !! n = Some u_n ∧ u !! (n - 1) = Some u_p ∧
    t !! (n + 1) = Some t_n1 ∧ t !! n = Some t_n ∧ t !! (n - 1) = Some t_p ∧
    u !! (n + 1) = Some (AdamsBashforth2_formula f u_n u_p t_n1 t_n t_p).

(** What [AdamsBashforth2] relies on between two steps.  Before the first
    step the starter is the instance made by [initialize_for_solve].  From
    step 1 on, the starter is as its one run left it, [u[1]] is the value
    [v1] that the starter returned, [f_n_1]
    holds [f(u[n-1], t[n-1])], and every later entry computed so far
    follows from the formula. *)
Definition AdamsBashforth2_inv (f : V → float → V) (tp : list float) (U0 : V)
    (starter starter' : Instance V) (v1 : V) (s : Instance V) : Prop :=
  self_f s = f ∧ self_t s = tp ∧ self_u s !! 0 = Some U0 ∧
  match self_n s with
  | 0 => self_starter s = Some starter
  | S k =>
      self_starter s = Some starter' ∧
      self_u s !! 1 = Some v1 ∧
      (∃ u_k t_k, self_u s !! k = Some u_k ∧ tp !! k = Some t_k ∧
                  self_f_n_1 s = Some (f u_k t_k)) ∧
      ∀ j, 1 ≤ j ≤ k → follows_formula f (self_u s) tp j
  end.

(** Two instances hold the same inputs of a run: the same class, the same
    configuration, the same right-hand side and the same initial condition.
    Nothing is said of what earlier runs left in the other attributes. *)
Definition same_inputs (s1 s2 : Instance V) : Prop :=
  self_name s1 = self_name s2 ∧ self_parameters s1 = self_parameters s2 ∧
  self_f s1 = self_f s2 ∧ self_U0 s1 = self_U0 s2.

(** Two instances agree on all that a step of [AdamsBashforth2] reads:
    the inputs, the arrays and the step index, the starter, and from step 1
    on the saved value [f_n_1]. *)
Definition agree (s1 s2 : Instance V) : Prop :=
  same_inputs s1 s2 ∧
  self_u s1 = self_u s2 ∧ self_t s1 = self_t s2 ∧ self_n s1 = self_n s2 ∧
  self_starter s1 = self_starter s2 ∧
  (1 ≤ self_n s1 → self_f_n_1 s1 = self_f_n_1 s2).

(** A method gives the same outcome on any two instances related by [R]:
    the same exception, or the same value with the instances then related
    by [R']. *)
Definition respects {A} (R R' : Instance V → Instance V → Prop)
    (m : M (Instance V) A) : Prop :=
  ∀ s1 s2, R s1 s2 →
    match m s1, m s2 with
    | (Ok a1, s1'), (Ok a2, s2') => a1 = a2 ∧ R' s1' s2'
    | (Raise e1, _), (Raise e2, _) => e1 = e2
    | _, _ => False
    end.

(** [self.u[n+1] = unew] and the move to step [n + 1]. *)
Definition store (n : nat) (unew : V) (s : Instance V) : Instance V :=
  with_n (n + 1) (with_u (<[n + 1 := unew]> (self_u s)) s).

End Vocabulary.


(** ** Vocabulary of the statements on doc strings *)

(** The class that a name denotes. *)
Definition bound_class (ns : gmap string Binding) (name : string) : option nat :=
  match ns !! name with
  | Some (ClassRef id) => Some id
  | _ => None
  end.

(** The line that a name contributes to the table of contents. *)
Definition toc_line (ns : gmap string Binding) (heap : gmap nat ClassObject)
    (classname : string) : option (string * string) :=
  match ns !! classname with
  | Some (ClassRef id) =>
      qd ← heap !! id ≫= quick_description; Some (classname, qd)
  | _ => None
  end.

(** The class object after one visit of the loop. *)
Definition patched (table_of_parameters : ClassObject → string)
    (class_ : ClassObject) (doc_str : string) : ClassObject :=
  {| cls_doc := Some (doc_str +:+ table_of_parameters class_);
     quick_description := quick_description class_ |}.

(** No class of the module is bound to two names. *)
Definition one_name_per_class (ns : gmap string Binding) : Prop :=
  ∀ name1 name2 id,
    ns !! name1 = Some (ClassRef id) → ns !! name2 = Some (ClassRef id) →
    name1 = name2.

(** The names that the first statement rebinds to [None]. *)
Definition rebound_names : list string := ["class_"; "doc_str"; "classname"].

(** The namespace as the list comprehension reads it, and as the loop and
    [del] read it. *)
Definition namespace_at_listing (ns : gmap string Binding) : gmap string Binding :=
  <["classname" := Other]> (<["doc_str" := Other]> (<["class_" := Other]> ns)).

Definition namespace_at_loop (ns : gmap string Binding) : gmap string Binding :=
  <["toc" := Other]> (<["classnames" := Other]> (<["obj" := Other]>
  (<["name" := Other]> (namespace_at_listing ns)))).

(** [classnames], in the order of [locals().items()]. *)
Definition listed_classnames (ns : gmap string Binding) : list string :=
  (filter (λ item, inspect_isclass item.2) (map_to_list (namespace_at_listing ns))).*1.

(** The class object after [k] visits of the loop. *)
Fixpoint appended (table_of_parameters : ClassObject → string) (k : nat)
    (class_ : ClassObject) : ClassObject :=
  match k with
  | 0 => class_
  | S k' =>
      let visited := appended table_of_parameters k' class_ in
      {| cls_doc := (λ doc_str, doc_str +:+ table_of_parameters visited)
                      <$> cls_doc visited;
         quick_description := quick_description visited |}
  end.




(** ** Vocabulary of the statements on single steps *)

Section StepVocabulary.
Context {V : Type} `{!Snapshot V}.

(** Entry [k + 1] of [u] is what the Forward Euler formula gives from
    entry [k]. *)
Definition follows_ForwardEuler (f : V → float → V) (u : list V) (t : list float)
    (k : nat) : Prop :=
  ∃ u_k t_k t_k1,
    u !! k = Some u_k ∧ t !! k = Some t_k ∧ t !! (k + 1) = Some t_k1 ∧
    u !! (k + 1) = Some (u_k + (t_k1 - t_k)%float * f u_k t_k)%V.

(** Between two steps of a Forward Euler run: every entry computed so far
    follows from the one before it. *)
Definition ForwardEuler_inv (f : V → float → V) (s : Instance V) : Prop :=
  self_f s = f ∧
  ∀ k, k < self_n s → follows_ForwardEuler f (self_u s) (self_t s) k.

(** The indices that a step from level [n] reads are in range. *)
Definition step_in_range (s : Instance V) : Prop :=
  self_n s + 1 < length (self_t s) ∧ self_n s < length (self_u s).
End StepVocabulary.

(** ** Sample inputs *)

(** Three equal time points: the spacing is constant, the sequence is not
    monotonic. *)
Definition stalled_instance : Instance float :=
  Build_Instance "AdamsBashforth2" ∅ (λ u t, u) (Some 1%float)
    [1%float; 0%float; 0%float] [1%float; 1%float; 1%float] 0 None None None [].

(** A module in which two names denote one class, as [Euler] and
    [ForwardEuler] do in the list of solvers of the package text. *)
Definition aliased_module : Module := {|
  namespace :=
    <["Euler" := ClassRef 0]> (<["ForwardEuler" := ClassRef 0]>
    (<["inspect" := Other]> (<["typeset_toc" := Other]>
    (<["table_of_parameters" := Other]> ∅))));
  classes :=
    <[0 := {| cls_doc := Some "Forward Euler scheme";
              quick_description := Some "The simple explicit (forward) Euler scheme" |}]> ∅;
  module_doc := "odespy"
|}.


(** The right-hand side of [u' = -u]. *)
Definition decay (u t : float) : float := (- u)%float.

(** The classes that [switch_to] finds by name: [Euler] is a second name
    of [ForwardEuler]. *)
Definition sample_methods (name : string) : option (Class float) :=
  if bool_decide (name = "ForwardEuler") then Some ForwardEuler
  else if bool_decide (name = "Euler") then Some ForwardEuler
  else None.

(** A Forward Euler solver with the initial condition [u(0) = 1]. *)
Definition sample_ForwardEuler : Instance float :=
  Build_Instance "ForwardEuler" (<["f" := VCallable "decay"]> ∅) decay
    (Some 1%float) [] [] 0 None None None [].

(** An Adams-Bashforth solver started by Forward Euler, with the initial
    condition [u(0) = 1]. *)
Definition sample_AdamsBashforth2 : Instance float :=
  Build_Instance "AdamsBashforth2"
    (<["start_method" := VStr "Euler"]> (<["f" := VCallable "decay"]> ∅)) decay
    (Some 1%float) [] [] 0 None None None [].

(** The same solver with what an earlier run left in its attributes. *)
Definition used_AdamsBashforth2 : Instance float :=
  Build_Instance "AdamsBashforth2"
    (<["start_method" := VStr "Euler"]> (<["f" := VCallable "decay"]> ∅)) decay
    (Some 1%float) [1%float; 7%float] [0%float; 3%float] 1
    (Some 5%float) (Some 9%float) None [Advance 0].

(** [terminate] of the decay example: stop once [abs(u[step_no]) <= tol]. *)
Definition below (tol : float) (u : list float) (t : list float) (step_no : nat) : bool :=
  match u !! step_no with
  | Some x => PrimFloat.leb (PrimFloat.abs x) tol
  | None => false
  end.

(** A module whose three classes have one name each. *)
Definition sample_module : Module := {|
  namespace :=
    <["ForwardEuler" := ClassRef 0]> (<["AdamsBashforth2" := ClassRef 1]>
    (<["Solver" := ClassRef 2]> (<["inspect" := Other]> (<["typeset_toc" := Other]>
    (<["table_of_parameters" := Other]> ∅)))));
  classes :=
    <[0 := {| cls_doc := Some "Forward Euler scheme";
              quick_description := Some "The simple explicit (forward) Euler scheme" |}]>
    (<[1 := {| cls_doc := Some "Second-order Adams-Bashforth method";
               quick_description := Some "Explicit 2nd-order Adams-Bashforth method" |}]>
    (<[2 := {| cls_doc := Some "Superclass for numerical methods";
               quick_description := None |}]> ∅));
  module_doc := "odespy"
|}.

(** What the module-level statements make of it, with helpers that return
    fixed strings. *)
Definition sample_module_patched : Module := {|
  namespace :=
    <["ForwardEuler" := ClassRef 0]> (<["AdamsBashforth2" := ClassRef 1]>
    (<["Solver" := ClassRef 2]> ∅));
  classes :=
    <[0 := {| cls_doc := Some "Forward Euler scheme<table>";
              quick_description := Some "The simple explicit (forward) Euler scheme" |}]>
    (<[1 := {| cls_doc := Some "Second-order Adams-Bashforth method<table>";
               quick_description := Some "Explicit 2nd-order Adams-Bashforth method" |}]>
    (<[2 := {| cls_doc := Some "Superclass for numerical methods<table>";
               quick_description := None |}]> ∅));
  module_doc := "odespy<toc><tutorial>"
|}.

Definition sample_toc : list (string * string) :=
  [("AdamsBashforth2", "Explicit 2nd-order Adams-Bashforth method");
   ("ForwardEuler", "The simple explicit (forward) Euler scheme")].


Definition aliased_module_patched : Module := {|
  namespace := <["Euler" := ClassRef 0]> (<["ForwardEuler" := ClassRef 0]> ∅);
  classes :=
    <[0 := {| cls_doc := Some "Forward Euler scheme<table><table>";
              quick_description := Some "The simple explicit (forward) Euler scheme" |}]> ∅;
  module_doc := "odespy<toc><tutorial>"
|}.

(** An Adams-Bashforth solver in the middle of a run: the first step is
    taken, [f_n_1] holds [f(u[0], t[0])]. *)
Definition midrun_AdamsBashforth2 : Instance float :=
  Build_Instance "AdamsBashforth2"
    (<["start_method" := VStr "Euler"]> (<["f" := VCallable "decay"]> ∅)) decay
    (Some 1%float) [1%float; 0.5%float; 0%float] [0%float; 0.5%float; 1%float] 1
    None (Some (-1)%float) None [].

(** The same solver after its solution has blown up at level 1. *)
Definition blown_up_AdamsBashforth2 : Instance float :=
  with_u [1%float; PrimFloat.nan; 0%float] midrun_AdamsBashforth2.

(** * Properties *)

(** ** Running monadic code *)

Ltac unfold_monad :=
  unfold mbind, M_bind, mret, M_ret, raise, get_self, gets, modify, attr, index,
    lift, log in *.


Section MonadFacts.
Context {S : Type}.

Lemma bind_ok {A B} (m : M S A) (k : A → M S B) s a s' :
  m s = (Ok a, s') → (m ≫= k) s = k a s'.
Proof. intros H. unfold mbind, M_bind. by rewrite H. Qed.

Lemma bind_raise {A B} (m : M S A) (k : A → M S B) s e s' :
  m s = (Raise e, s') → (m ≫= k) s = (Raise e, s').
Proof. intros H. unfold mbind, M_bind. by rewrite H. Qed.

Lemma index_ok {A} (a : list A) i x (s : S) :
  a !! i = Some x → index a i s = (Ok x, s).
Proof. intros H. unfold index. by rewrite H. Qed.
End MonadFacts.

(** ** Forward Euler *)

Section ForwardEulerFacts.
Context {V : Type} `{!Snapshot V}.
Implicit Types s : Instance V.

(** C5.  Positioned at step [n], [ForwardEuler.advance] returns
    [u[n] + (t[n+1] - t[n]) * f(u[n], t[n])] and leaves every attribute of
    the instance as it was: the value is a function of [u[n]], [t[n]] and
    [t[n+1]] alone, and no time level is written. *)
Theorem ForwardEuler_advance_formula s (u_n : V) (t_n t_n1 : float) :
  self_u s !! self_n s = Some u_n →
  self_t s !! self_n s = Some t_n →
  self_t s !! (self_n s + 1) = Some t_n1 →
  ForwardEuler_advance s
  = (Ok (u_n + (t_n1 - t_n)%float * self_f s u_n t_n)%V, s).
Proof.
  intros Hu Ht Ht1. unfold ForwardEuler_advance.
  unfold_monad. cbn. by rewrite Ht1, Ht, Hu.
Qed.
End ForwardEulerFacts.

(** ** The time loop *)

Section TimeLoop.
Context {V : Type} `{!Snapshot V}.
Implicit Types (s : Instance V) (C : Class V) (terminate : option (@TerminateFn V)).

Lemma truncate_all k s :
  length (self_u s) ≤ k → length (self_t s) ≤ k → truncate k s = s.
Proof.
  intros Hu Ht. unfold truncate. rewrite !take_ge by done. by destruct s.
Qed.

Lemma loop_events_S terminate n m :
  loop_events terminate n (S m)
  = (Advance n :: match terminate with
                  | Some _ => [Terminate (n + 1)]
                  | None => []
                  end) ++ loop_events terminate (S n) m.
Proof. reflexivity. Qed.

(** One pass of the loop, given what [advance] does. *)
Lemma time_loop_step C terminate steps s unew s1 :
  advance C (with_trace (self_trace s ++ [Advance (self_n s)]) s) = (Ok unew, s1) →
  time_loop C terminate (S steps) s
  = let s2 := with_n (self_n s + 1)
                (with_u (<[self_n s + 1 := unew]> (self_u s1)) s1) in
    match terminate with
    | None => time_loop C terminate steps s2
    | Some term =>
        let s3 := with_trace (self_trace s2 ++ [Terminate (self_n s + 1)]) s2 in
        if term (self_u s3) (self_t s3) (self_n s + 1)
        then (Ok tt, truncate (self_n s + 2) s3)
        else time_loop C terminate steps s3
    end.
Proof.
  intros Hrun. cbn [time_loop]. unfold_monad. cbn. rewrite Hrun.
  destruct terminate as [term|]; cbn; [|done].
  by destruct (term _ _ _).
Qed.

Lemma time_loop_raise C terminate steps s e s1 :
  advance C (with_trace (self_trace s ++ [Advance (self_n s)]) s) = (Raise e, s1) →
  time_loop C terminate (S steps) s = (Raise e, s1).
Proof.
  intros Hrun. cbn [time_loop]. unfold_monad. cbn. by rewrite Hrun.
Qed.

Lemma seen_eq (a b c : list V) k :
  take (k + 1) a = take (k + 1) c → drop (k + 1) b = drop (k + 1) c →
  seen a b k = c.
Proof. intros H1 H2. unfold seen. rewrite H1, H2. apply take_drop. Qed.

Lemma seen_insert (a b : list V) i x k :
  i ≤ k → seen a (<[i := x]> b) k = seen a b k.
Proof. intros H. unfold seen. by rewrite drop_insert_lt by lia. Qed.

Lemma take_le_eq {A} (a b : list A) j k :
  j ≤ k → take k a = take k b → take j a = take j b.
Proof.
  intros Hjk H. rewrite <-(Nat.min_l j k) by done.
  by rewrite <-!take_take, H.
Qed.

Lemma time_loop_spec C terminate Inv :
  StepAdvancer C Inv →
  ∀ steps s,
    Inv s → length (self_u s) = length (self_t s) →
    self_n s + steps + 1 = length (self_t s) →
    ∃ m sf,
      time_loop C terminate steps s = (Ok tt, truncate (self_n s + m + 1) sf) ∧
      m ≤ steps ∧ (0 < steps → 0 < m) ∧ Inv sf ∧
      self_n sf = self_n s + m ∧ self_t sf = self_t s ∧
      length (self_u sf) = length (self_u s) ∧
      take (self_n s + 1) (self_u sf) = take (self_n s + 1) (self_u s) ∧
      drop (self_n s + m + 1) (self_u sf) = drop (self_n s + m + 1) (self_u s) ∧
      self_trace sf = self_trace s ++ loop_events terminate (self_n s) m ∧
      (∀ j, 1 ≤ j < m →
         asks terminate (seen (self_u sf) (self_u s) (self_n s + j)) (self_t s)
           (self_n s + j) = false) ∧
      (m < steps →
         asks terminate (seen (self_u sf) (self_u s) (self_n s + m)) (self_t s)
           (self_n s + m) = true).
Proof.
  intros [Htr Hadv]. induction steps as [|steps IH]; intros s HI Hlen Hn.
  - exists 0, s. rewrite truncate_all by lia.
    split_and!; try done; try lia.
    unfold loop_events. cbn. by rewrite app_nil_r.
  - set (s0 := with_trace (self_trace s ++ [Advance (self_n s)]) s).
    destruct (Hadv s0) as (unew & s1 & Hrun & Hu1 & Ht1 & Hn1 & Htr1 & HI1);
      [by apply Htr | cbn; lia | done |].
    cbn in Hu1, Ht1, Hn1, Htr1, HI1.
    rewrite (time_loop_step _ _ _ _ _ _ Hrun). cbn zeta.
    set (s2 := with_n (self_n s + 1) (with_u (<[self_n s + 1 := unew]> (self_u s1)) s1)) in *.
    assert (Hu2 : self_u s2 = <[self_n s + 1 := unew]> (self_u s)) by (cbn; by rewrite Hu1).
    assert (Ht2 : self_t s2 = self_t s) by done.
    assert (Hn2 : self_n s2 = self_n s + 1) by done.
    assert (Htr2 : self_trace s2 = self_trace s ++ [Advance (self_n s)]) by done.
    clearbody s2. clear Hrun Hu1 Ht1 Hn1 Htr1 s1 s0.
    (* the passes that follow a negative answer *)
    assert (Hcont : ∀ s3 head,
      Inv s3 → self_u s3 = self_u s2 → self_t s3 = self_t s → self_n s3 = self_n s + 1 →
      self_trace s3 = self_trace s ++ head →
      loop_events terminate (self_n s) 1 = head →
      asks terminate (self_u s3) (self_t s) (self_n s + 1) = false →
      ∃ m sf,
        time_loop C terminate steps s3 = (Ok tt, truncate (self_n s + m + 1) sf) ∧
        m ≤ S steps ∧ (0 < S steps → 0 < m) ∧ Inv sf ∧
        self_n sf = self_n s + m ∧ self_t sf = self_t s ∧
        length (self_u sf) = length (self_u s) ∧
        take (self_n s + 1) (self_u sf) = take (self_n s + 1) (self_u s) ∧
        drop (self_n s + m + 1) (self_u sf) = drop (self_n s + m + 1) (self_u s) ∧
        self_trace sf = self_trace s ++ loop_events terminate (self_n s) m ∧
        (∀ j, 1 ≤ j < m →
           asks terminate (seen (self_u sf) (self_u s) (self_n s + j)) (self_t s)
             (self_n s + j) = false) ∧
        (m < S steps →
           asks terminate (seen (self_u sf) (self_u s) (self_n s + m)) (self_t s)
             (self_n s + m) = true)).
    { intros s3 head HI3 Hu3 Ht3 Hn3 Htr3 Hhead Hno.
      destruct (IH s3) as (m & sf & Hloop & Hm & Hpos & HIf & Hnf & Htf & Hlf & Htk & Hdr
                             & Htrf & Hfalse & Htrue);
        [done | rewrite Hu3, Hu2, length_insert, Ht3; exact Hlen | rewrite Hn3, Ht3; lia |].
      rewrite Hn3, Hu3, Hu2, ?Ht3 in *.
      exists (S m), sf.
      replace (self_n s + S m + 1) with (self_n s + 1 + m + 1) by lia.
      split_and!; try done; try lia.
      - by rewrite length_insert in Hlf.
      - rewrite <-(take_insert_ge (self_u s) _ (self_n s + 1) unew) by lia.
        apply (take_le_eq _ _ _ (self_n s + 1 + 1)); [lia|exact Htk].
      - by rewrite Hdr, drop_insert_lt by lia.
      - rewrite Htrf, Htr3, <-Hhead, <-app_assoc. f_equal.
        rewrite (loop_events_S _ _ m). unfold loop_events at 1. cbn.
        rewrite app_nil_r, Nat.add_1_r. done.
      - intros j Hj. destruct (decide (j = 1)) as [->|Hj1].
        + rewrite (seen_eq _ _ (<[self_n s + 1 := unew]> (self_u s)));
            [done | done | by rewrite drop_insert_lt by lia].
        + specialize (Hfalse (j - 1)).
          replace (self_n s + 1 + (j - 1)) with (self_n s + j) in Hfalse by lia.
          rewrite seen_insert in Hfalse by lia. apply Hfalse. lia.
      - intros Hlt.
        replace (self_n s + 1 + m) with (self_n s + S m) in Htrue by lia.
        rewrite seen_insert in Htrue by lia. apply Htrue. lia. }
    destruct terminate as [term|].
    + set (s3 := with_trace (self_trace s2 ++ [Terminate (self_n s + 1)]) s2).
      destruct (term (self_u s3) (self_t s3) (self_n s + 1)) eqn:Hterm.
      * exists 1, s3. replace (self_n s + 1 + 1) with (self_n s + 2) by lia.
        cbn [self_u self_t self_n self_trace s3 with_trace] in *.
        split_and!; try done; try lia.
        -- by apply Htr.
        -- by rewrite Hu2, length_insert.
        -- by rewrite Hu2, take_insert_ge by lia.
        -- by rewrite Hu2, drop_insert_lt by lia.
        -- rewrite Htr2, <-app_assoc. done.
        -- intros _. rewrite (seen_eq _ _ (self_u s2));
             [| done | by rewrite Hu2, drop_insert_lt by lia].
           cbn [asks]. by rewrite <-Ht2.
      * apply (Hcont s3 [Advance (self_n s); Terminate (self_n s + 1)]);
          try done.
        -- by apply Htr.
        -- cbn. by rewrite Htr2, <-app_assoc.
        -- cbn [asks]. by rewrite <-Ht2.
    + apply (Hcont s2 [Advance (self_n s)]); done.
Qed.

(** ** [solve] for the classes that inherit the hooks of [Solver] *)

Lemma Solver_initialize_for_solve_ok s U0 :
  self_U0 s = Some U0 → self_t s ≠ [] →
  Solver_initialize_for_solve s
  = (Ok tt, with_u (<[0 := U0]> (replicate (length (self_t s)) vzero))
              (with_trace (self_trace s ++ [Called "Solver.initialize_for_solve"]) s)).
Proof.
  intros HU0 Ht. unfold Solver_initialize_for_solve. unfold_monad. cbn.
  rewrite HU0. simpl. destruct (self_t s) as [|t0 t]; [done|]. reflexivity.
Qed.

Lemma solve_inherited C tp terminate s U0 :
  inherits_hooks C → self_U0 s = Some U0 → tp ≠ [] →
  solve C tp terminate s
  = if monotonic tp then
      (time_loop C terminate (length tp - 1);;
       s' ← get_self; mret (self_u s', self_t s')) (prepared Solver_hooks s tp U0)
    else (Raise (ValidationError (self_name s)), prepared Solver_hooks s tp U0).
Proof.
  intros [Hinit Hvalid] HU0 Htp. unfold solve. rewrite Hinit, Hvalid.
  unfold mbind at 1, M_bind at 1. unfold modify at 1.
  unfold mbind at 1, M_bind at 1.
  rewrite (Solver_initialize_for_solve_ok _ U0) by done.
  unfold Solver_validate_data. unfold_monad. simpl.
  unfold prepared, Solver_hooks. rewrite <-app_assoc. simpl.
  destruct s; simpl. by destruct (monotonic tp).
Qed.

(** Forward Euler meets the contract, with nothing kept between steps. *)
Lemma ForwardEuler_advance_eq s (u_n : V) (t_n t_n1 : float) :
  self_u s !! self_n s = Some u_n →
  self_t s !! self_n s = Some t_n →
  self_t s !! (self_n s + 1) = Some t_n1 →
  ForwardEuler_advance s
  = (Ok (u_n + (t_n1 - t_n)%float * self_f s u_n t_n)%V, s).
Proof.
  intros Hu Ht Ht1. unfold ForwardEuler_advance.
  unfold_monad. simpl. by rewrite Ht1, Ht, Hu.
Qed.

Lemma ForwardEuler_StepAdvancer : StepAdvancer (ForwardEuler (V:=V)) (λ _, True).
Proof.
  split; [done|]. intros s _ Hn Hlen.
  destruct (lookup_lt_is_Some_2 (self_u s) (self_n s)) as [u_n Hu]; [lia|].
  destruct (lookup_lt_is_Some_2 (self_t s) (self_n s)) as [t_n Ht]; [lia|].
  destruct (lookup_lt_is_Some_2 (self_t s) (self_n s + 1)) as [t_n1 Ht1]; [lia|].
  eexists _, s. split; [by apply ForwardEuler_advance_eq|done].
Qed.

Lemma ForwardEuler_inherits_hooks : inherits_hooks (ForwardEuler (V:=V)).
Proof. done. Qed.

Lemma asks_None (u : list V) t k : asks None u t k = false.
Proof. done. Qed.

Lemma seen_allocated (u : list V) (U0 : V) N k :
  seen u (<[0 := U0]> (replicate N vzero)) k
  = take (k + 1) u ++ replicate (N - (k + 1)) vzero.
Proof.
  unfold seen. by rewrite drop_insert_lt, drop_replicate by lia.
Qed.

(** What [solve] does for a class that inherits the hooks and whose
    [advance] keeps nothing between steps: [m] steps are taken, the arrays
    returned hold the [m + 1] entries computed, and [m] falls short of the
    last time point only if [terminate] said so. *)
Lemma solve_spec C s (U0 : V) (tp : list float) (terminate : option TerminateFn) :
  inherits_hooks C → StepAdvancer C (λ _, True) →
  self_U0 s = Some U0 → tp ≠ [] → monotonic tp = true →
  ∃ m u s',
    solve C tp terminate s = (Ok (take (m + 1) u, take (m + 1) tp), s') ∧
    m ≤ length tp - 1 ∧ (1 < length tp → 1 ≤ m) ∧
    length u = length tp ∧ u !! 0 = Some U0 ∧
    self_u s' = take (m + 1) u ∧ self_t s' = take (m + 1) tp ∧
    self_trace s' = self_trace s ++ Solver_hooks ++ loop_events terminate 0 m ∧
    (∀ j, 1 ≤ j < m →
       asks terminate (take (j + 1) u ++ replicate (length tp - (j + 1)) vzero)
         tp j = false) ∧
    (m < length tp - 1 →
       asks terminate (take (m + 1) u ++ replicate (length tp - (m + 1)) vzero)
         tp m = true).
Proof.
  intros Hhooks Hadv HU0 Htp Hmono.
  rewrite (solve_inherited _ _ _ _ U0), Hmono by done.
  assert (Hpos : 0 < length tp) by (destruct tp; simpl; [done|lia]).
  set (s0 := prepared Solver_hooks s tp U0).
  assert (Hu0 : self_u s0 = <[0 := U0]> (replicate (length tp) vzero)) by done.
  assert (Ht0 : self_t s0 = tp) by done.
  assert (Hn0 : self_n s0 = 0) by done.
  assert (Htr0 : self_trace s0 = self_trace s ++ Solver_hooks) by done.
  clearbody s0.
  destruct (time_loop_spec C terminate _ Hadv (length tp - 1) s0)
    as (m & sf & Hloop & Hm & Hm1 & _ & Hnf & Htf & Hlf & Htk & _ & Htrf & Hno & Hyes);
    [done | by rewrite Hu0, Ht0, length_insert, length_replicate
          | rewrite Hn0, Ht0; lia |].
  rewrite Hn0, Ht0, Hu0, ?length_insert, ?length_replicate in *.
  exists m, (self_u sf), (truncate (m + 1) sf).
  rewrite (bind_ok _ _ _ _ _ Hloop). unfold_monad. simpl in *.
  rewrite Htf. split_and!; try done.
  - intros ?. apply Hm1. lia.
  - apply (f_equal (λ l, l !! 0)) in Htk.
    rewrite !lookup_take_lt in Htk by lia. rewrite Htk.
    apply list_lookup_insert_eq. by rewrite length_replicate.
  - by rewrite Htrf, Htr0, <-app_assoc.
  - intros j Hj. specialize (Hno j Hj). by rewrite seen_allocated in Hno.
  - intros Hlt. specialize (Hyes Hlt). by rewrite seen_allocated in Hyes.
Qed.

(** C1.  Without a [terminate] function, [solve] returns one entry of [u]
    per time point, and the [t] it returns is [time_points] itself.  This
    holds for every class that inherits the hooks of [Solver] and whose
    [advance] meets the step-advancer contract; [time_points] has at least one
    entry and is monotonic, and the initial condition is set. *)
Theorem solve_returns_every_time_point C s (U0 : V) (time_points : list float) :
  inherits_hooks C → StepAdvancer C (λ _, True) →
  self_U0 s = Some U0 → time_points ≠ [] → monotonic time_points = true →
  ∃ u s',
    solve C time_points None s = (Ok (u, time_points), s') ∧
    length u = length time_points ∧
    u !! 0 = Some U0 ∧
    self_u s' = u ∧ self_t s' = time_points.
Proof.
  intros Hhooks Hadv HU0 Htp Hmono.
  destruct (solve_spec C s U0 time_points None)
    as (m & u & s' & Hsolve & Hm & _ & Hlen & Hu0 & Hu & Ht & _ & _ & Hstop);
    [done..|].
  assert (m = length time_points - 1) as ->.
  { destruct (decide (m < length time_points - 1)) as [Hlt|Hge]; [|lia].
    by specialize (Hstop Hlt). }
  assert (Hpos : 0 < length time_points) by (destruct time_points; simpl; [done|lia]).
  rewrite !take_ge in * by lia.
  by exists u, s'.
Qed.

(** C2.  With a [terminate] function, [solve] takes [m] steps, and its
    record shows the calls in this order: [advance] from step 0,
    [terminate] with [step_no = 1], [advance] from step 1, [terminate] with
    [step_no = 2], and so on up to [step_no = m]: one call of [terminate]
    per step, each after the step's value is stored.  What [terminate]
    sees at [step_no = j] is the array whose entries [0..j] are computed
    and whose later slots still hold the zeros of the allocation.  It
    answered false at every step before [m], and true at [m] unless [m] is
    the last time point.  The arrays returned have exactly [m + 1]
    entries. *)
Theorem solve_asks_terminate_after_every_step C s (U0 : V)
    (time_points : list float) (terminate : TerminateFn) :
  inherits_hooks C → StepAdvancer C (λ _, True) →
  self_U0 s = Some U0 → time_points ≠ [] → monotonic time_points = true →
  ∃ m u s',
    solve C time_points (Some terminate) s
      = (Ok (take (m + 1) u, take (m + 1) time_points), s') ∧
    m ≤ length time_points - 1 ∧ (1 < length time_points → 1 ≤ m) ∧
    length u = length time_points ∧
    length (take (m + 1) u) = m + 1 ∧
    length (take (m + 1) time_points) = m + 1 ∧
    self_trace s' = self_trace s ++ Solver_hooks ++ loop_events (Some terminate) 0 m ∧
    (∀ j, 1 ≤ j < m →
       terminate (take (j + 1) u ++ replicate (length time_points - (j + 1)) vzero)
         time_points j = false) ∧
    (m < length time_points - 1 →
       terminate (take (m + 1) u ++ replicate (length time_points - (m + 1)) vzero)
         time_points m = true).
Proof.
  intros Hhooks Hadv HU0 Htp Hmono.
  destruct (solve_spec C s U0 time_points (Some terminate))
    as (m & u & s' & Hsolve & Hm & Hm1 & Hlen & _ & _ & _ & Htr & Hno & Hyes);
    [done..|].
  assert (Hpos : 0 < length time_points) by (destruct time_points; simpl; [done|lia]).
  exists m, u, s'. split_and!; try done.
  - rewrite length_take. lia.
  - rewrite length_take. lia.
Qed.
End TimeLoop.

(** ** Adams-Bashforth 2 *)

Section AdamsBashforth2Facts.
Context {V : Type} `{!Snapshot V}.
Variable registry : gmap string ParameterSpec.
Variable methods : string → option (Class V).
Implicit Types (s : Instance V) (C : Class V).

Local Abbreviation AB2 := (AdamsBashforth2 registry methods).

Lemma construct_ok C fname (f : V → float → V) :
  (∀ p, p ∈ parameter_names C → is_Some (registry !! p)) →
  construct registry C fname f []
  = Ok (Build_Instance (cls_name C)
          (<["f" := VCallable fname]> (defaults registry (parameter_names C)))
          f None [] [] 0 None None None []).
Proof.
  intros Hreg. unfold construct.
  destruct (List.find _ _) as [p|] eqn:Hfind; [|done].
  apply find_some in Hfind as [Hin Hp].
  apply list_elem_of_In, Hreg in Hin.
  by rewrite bool_decide_eq_true_2 in Hp.
Qed.

(** The instance that [switch_to] makes when there are no overrides. *)
Lemma switch_to_ok s C' name :
  methods name = Some C' →
  (∀ p, p ∈ parameter_names C' → is_Some (registry !! p)) →
  switch_to registry methods s name [] = Ok (new_instance registry C' s).
Proof.
  intros Hname Hreg. unfold switch_to. rewrite Hname, construct_ok by done.
  done.
Qed.

Lemma AdamsBashforth2_initialize_for_solve_ok s C' name (U0 : V) :
  self_parameters s !! "start_method" = Some (VStr name) →
  methods name = Some C' →
  (∀ p, p ∈ parameter_names C' → is_Some (registry !! p)) →
  self_U0 s = Some U0 → self_t s ≠ [] →
  AdamsBashforth2_initialize_for_solve registry methods s
  = (Ok tt,
     with_u (<[0 := U0]> (replicate (length (self_t s)) vzero))
       (with_trace (self_trace s ++ [Called "AdamsBashforth2.initialize_for_solve";
                                     Called "Solver.initialize_for_solve"])
          (with_starter (Some (new_instance registry C' s)) s))).
Proof.
  intros Hsm Hname Hreg HU0 Ht. unfold AdamsBashforth2_initialize_for_solve.
  unfold_monad. simpl. rewrite Hsm.
  rewrite (switch_to_ok _ C') by done.
  change (new_instance registry C' (with_trace _ s)) with (new_instance registry C' s).
  rewrite (Solver_initialize_for_solve_ok _ U0) by done.
  simpl. rewrite <-app_assoc. by destruct s.
Qed.

Lemma AdamsBashforth2_validate_data_eq s :
  AdamsBashforth2_validate_data s
  = (Ok (uniform (self_t s)),
     with_trace (self_trace s ++ Called "AdamsBashforth2.validate_data" ::
                   if uniform (self_t s) then []
                   else [Printed (self_name s +:+ " must have constant time step")]) s).
Proof.
  unfold AdamsBashforth2_validate_data, constant_time_step. unfold_monad. simpl.
  destruct (uniform (self_t s)); simpl; [done|].
  by rewrite <-app_assoc.
Qed.

Lemma solve_AdamsBashforth2 s C' name (U0 : V) tp terminate :
  self_parameters s !! "start_method" = Some (VStr name) →
  methods name = Some C' →
  (∀ p, p ∈ parameter_names C' → is_Some (registry !! p)) →
  self_U0 s = Some U0 → tp ≠ [] →
  solve AB2 tp terminate s
  = if uniform tp then
      (time_loop AB2 terminate (length tp - 1);;
       s' ← get_self; mret (self_u s', self_t s'))
        (prepared AdamsBashforth2_hooks
           (with_starter (Some (new_instance registry C' s)) s) tp U0)
    else
      (Raise (ValidationError (self_name s)),
       prepared (AdamsBashforth2_hooks
                   ++ [Printed (self_name s +:+ " must have constant time step")])
         (with_starter (Some (new_instance registry C' s)) s) tp U0).
Proof.
  intros Hsm Hname Hreg HU0 Htp. unfold solve.
  unfold mbind at 1, M_bind at 1. unfold modify at 1.
  unfold mbind at 1, M_bind at 1. simpl.
  rewrite (AdamsBashforth2_initialize_for_solve_ok _ C' name U0) by done.
  unfold mbind at 1, M_bind at 1.
  rewrite AdamsBashforth2_validate_data_eq. simpl.
  unfold prepared, AdamsBashforth2_hooks.
  destruct (uniform tp); simpl.
  - rewrite <-!app_assoc. simpl. by destruct s.
  - unfold_monad. simpl. rewrite <-!app_assoc. simpl. by destruct s.
Qed.



Lemma follows_formula_insert (f : V → float → V) (u : list V) tp j k x :
  j + 1 < k → follows_formula f u tp j → follows_formula f (<[k := x]> u) tp j.
Proof.
  intros Hjk (u_n & u_p & t_n1 & t_n & t_p & H1 & H2 & H3 & H4 & H5 & H6).
  exists u_n, u_p, t_n1, t_n, t_p.
  rewrite !list_lookup_insert_ne by lia. done.
Qed.

Lemma AdamsBashforth2_StepAdvancer (f : V → float → V) tp (U0 : V) st C' t0 t1
    u_starter t_starter st' v1 :
  tp !! 0 = Some t0 → tp !! 1 = Some t1 →
  methods (self_name st) = Some C' →
  solve C' [t0; t1] None (with_U0 (Some U0) st) = (Ok (u_starter, t_starter), st') →
  u_starter !! (length u_starter - 1) = Some v1 →
  StepAdvancer AB2 (AdamsBashforth2_inv f tp U0 st st' v1).
Proof.
  intros Ht0 Ht1 Hcls Hstart Hv1. split.
  { intros s tr. by unfold AdamsBashforth2_inv. }
  intros s (Hf & Ht & Hu0 & Hinv) Hn Hlen. rewrite Ht in *.
  destruct (self_n s) as [|k] eqn:Hk.
  - (* the first step *)
    exists v1, (with_f_n_1 (Some (f U0 t0))
                 (with_starter (Some st') s)).
    split_and!; try done.
    + simpl. unfold AdamsBashforth2_advance. unfold_monad. simpl.
      rewrite Hk, Ht. simpl. rewrite Hinv, Hu0. unfold_monad. simpl.
      unfold on_starter at 1, set_initial_condition, modify. simpl.
      rewrite Hinv, Ht0, Ht1. simpl.
      unfold on_starter, solve_method. unfold_monad. simpl.
      rewrite Hcls, Hstart. simpl.
      rewrite Hv1. simpl. rewrite Hf. by destruct s.
    + unfold AdamsBashforth2_inv. simpl.
      rewrite !(list_lookup_insert_ne _ 1 0) by lia.
      rewrite list_lookup_insert_eq by lia.
      split_and!; try done.
      * by exists U0, t0.
      * intros j Hj. lia.
  - (* a step of the formula *)
    destruct Hinv as (Hst & Hu1 & (u_k & t_k & Huk & Htk & Hfn1) & Hform).
    destruct (lookup_lt_is_Some_2 (self_u s) (S k)) as [u_n Hun]; [lia|].
    destruct (lookup_lt_is_Some_2 tp (S k)) as [t_n Htn]; [lia|].
    destruct (lookup_lt_is_Some_2 tp (S (k + 1))) as [t_n1 Htn1]; [lia|].
    exists (AdamsBashforth2_formula f u_n u_k t_n1 t_n t_k),
           (with_f_n_1 (Some (f u_n t_n)) (with_f_n (Some (f u_n t_n)) s)).
    split_and!; try done.
    + simpl. unfold AdamsBashforth2_advance. unfold_monad. simpl.
      rewrite Hk, Ht. simpl. rewrite Htn1, Htn, Hun. unfold_monad. simpl.
      rewrite Hfn1, Hf. done.
    + unfold AdamsBashforth2_inv. simpl.
      rewrite !(list_lookup_insert_ne _ (S (k + 1)) 0) by lia.
      rewrite !(list_lookup_insert_ne _ (S (k + 1)) 1) by lia.
      split_and!; try done.
      * exists u_n, t_n. rewrite list_lookup_insert_ne by lia.
        by rewrite Nat.add_1_r.
      * intros j Hj. destruct (decide (j = S k)) as [->|Hne].
        -- exists u_n, u_k, t_n1, t_n, t_k.
           rewrite !list_lookup_insert_ne by lia.
           replace (S k - 1) with k by lia.
           split_and!; try done.
           replace (S k + 1) with (S (k + 1)) by lia.
           apply list_lookup_insert_eq. lia.
        -- apply follows_formula_insert; [lia|]. apply Hform. lia.
Qed.

(** C6.  [AdamsBashforth2] needs one step before its formula applies.
    Run on at least two time points of constant spacing, [solve] returns
    one entry per time point.  Entry 1 is the last entry of what the
    starter returns: the starter is the instance that [switch_to] made of
    the class named by [start_method], given the initial condition [u[0]]
    and solved over the two time points [t[0], t[1]]; its own record shows
    exactly one step, and it is not used again.  Every later entry
    [u[n+1]], [n >= 1], is
    [u[n] + dt/2*(3*f(u[n], t[n]) - f(u[n-1], t[n-1]))].  The starter class
    is assumed to inherit the hooks of [Solver] and to meet the
    step-advancer contract, as [ForwardEuler] does. *)
Theorem AdamsBashforth2_starter_then_formula s C' name (U0 : V)
    (time_points : list float) t0 t1 :
  self_parameters s !! "start_method" = Some (VStr name) →
  methods name = Some C' →
  methods (cls_name C') = Some C' →
  (∀ p, p ∈ parameter_names C' → is_Some (registry !! p)) →
  inherits_hooks C' → StepAdvancer C' (λ _, True) →
  self_U0 s = Some U0 →
  time_points !! 0 = Some t0 → time_points !! 1 = Some t1 →
  monotonic [t0; t1] = true → uniform time_points = true →
  ∃ u s' u_starter starter',
    solve AB2 time_points None s = (Ok (u, time_points), s') ∧
    length u = length time_points ∧ u !! 0 = Some U0 ∧
    solve C' [t0; t1] None (with_U0 (Some U0) (new_instance registry C' s))
      = (Ok (u_starter, [t0; t1]), starter') ∧
    length u_starter = 2 ∧ u_starter !! 0 = Some U0 ∧
    u !! 1 = u_starter !! 1 ∧
    self_trace starter' = Solver_hooks ++ [Advance 0] ∧
    self_starter s' = Some starter' ∧
    ∀ n, 1 ≤ n → n + 1 < length time_points →
         follows_formula (self_f s) u time_points n.
Proof.
  intros Hsm Hname Hcls Hreg Hhooks Hadv HU0 Ht0 Ht1 Hmono Huni.
  assert (Htp : time_points ≠ []) by (by intros ->).
  assert (Hlen2 : 1 < length time_points) by (by apply lookup_lt_Some in Ht1).
  (* the run of the starter *)
  set (st := new_instance registry C' s).
  destruct (solve_spec C' (with_U0 (Some U0) st) U0 [t0; t1] None)
    as (m' & us & st' & Hstart & Hm' & Hm1' & Hlus & Hus0 & _ & _ & Htrst & _ & _);
    [done..|].
  simpl in Hm', Hm1', Hlus, Htrst.
  assert (m' = 1) as -> by lia.
  rewrite !take_ge in Hstart by (simpl; lia).
  destruct (lookup_lt_is_Some_2 us 1) as [v1 Hv1]; [lia|].
  (* the time loop *)
  rewrite (solve_AdamsBashforth2 _ C' name U0), Huni by done.
  fold st.
  set (s0 := prepared AdamsBashforth2_hooks (with_starter (Some st) s) time_points U0).
  assert (Hu0 : self_u s0 = <[0 := U0]> (replicate (length time_points) vzero)) by done.
  assert (Hts0 : self_t s0 = time_points) by done.
  assert (Hn0 : self_n s0 = 0) by done.
  assert (HI0 : AdamsBashforth2_inv (self_f s) time_points U0 st st' v1 s0).
  { unfold AdamsBashforth2_inv. rewrite Hu0. simpl. split_and!; try done.
    apply list_lookup_insert_eq. rewrite length_replicate. lia. }
  clearbody s0.
  destruct (time_loop_spec AB2 None _
              (AdamsBashforth2_StepAdvancer (self_f s) time_points U0 st C' t0 t1
                 us [t0; t1] st' v1 Ht0 Ht1 Hcls Hstart
                 ltac:(by rewrite Hlus))
              (length time_points - 1) s0)
    as (m & sf & Hloop & Hm & _ & HIf & Hnf & Htf & Hlf & Htk & _ & _ & _ & Hstop);
    [done | by rewrite Hu0, Hts0, length_insert, length_replicate
          | rewrite Hn0, Hts0; lia |].
  rewrite Hn0, Hts0, Hu0, ?length_insert, ?length_replicate in *.
  assert (m = length time_points - 1) as ->.
  { destruct (decide (m < length time_points - 1)) as [Hlt|Hge]; [|lia].
    by specialize (Hstop Hlt). }
  rewrite truncate_all in Hloop by (rewrite ?Htf; lia).
  exists (self_u sf), sf, us, st'.
  rewrite (bind_ok _ _ _ _ _ Hloop). unfold_monad. simpl in *.
  destruct HIf as (Hff & _ & Hsf0 & HIf). rewrite Hnf in HIf.
  destruct (length time_points - 1) as [|k] eqn:Hk; [lia|].
  destruct HIf as (Hstf & Hsf1 & _ & Hform).
  rewrite Htf. split_and!; try done.
  - by rewrite Hsf1, Hv1.
  - intros n Hn1 Hn2. apply Hform. lia.
Qed.
End AdamsBashforth2Facts.

(** ** Runs do not depend on what earlier runs left behind *)

Section Determinism.
Context {V : Type} `{!Snapshot V}.
Variable registry : gmap string ParameterSpec.
Variable methods : string → option (Class V).
Implicit Types (s : Instance V) (C : Class V).

Local Abbreviation AB2 := (AdamsBashforth2 registry methods).

Lemma respects_bind {A B} (R R' R'' : Instance V → Instance V → Prop)
    (m : M (Instance V) A) (k : A → M (Instance V) B) :
  respects R R' m → (∀ a, respects R' R'' (k a)) → respects R R'' (m ≫= k).
Proof.
  intros Hm Hk s1 s2 HR. specialize (Hm s1 s2 HR).
  unfold mbind, M_bind.
  destruct (m s1) as [[a1|e1] s1'], (m s2) as [[a2|e2] s2']; try done.
  destruct Hm as [-> HR']. by apply Hk.
Qed.

Lemma respects_ret {A} (R : Instance V → Instance V → Prop) (a : A) :
  respects R R (mret a).
Proof. by intros s1 s2 HR. Qed.

Lemma respects_weaken {A} (R R' R'' : Instance V → Instance V → Prop)
    (m : M (Instance V) A) :
  (∀ s1 s2, R' s1 s2 → R'' s1 s2) → respects R R' m → respects R R'' m.
Proof.
  intros Hw Hm s1 s2 HR. specialize (Hm s1 s2 HR).
  destruct (m s1) as [[a1|e1] s1'], (m s2) as [[a2|e2] s2']; try done.
  destruct Hm as [-> HR']. auto.
Qed.

(** The time loop, for a class whose [advance] gives the same outcome on
    related instances and leaves them related once the value is stored. *)
Lemma time_loop_respects C terminate (R : Instance V → Instance V → Prop) :
  (∀ s1 s2, R s1 s2 → self_u s1 = self_u s2 ∧ self_t s1 = self_t s2 ∧
                       self_n s1 = self_n s2) →
  (∀ s1 s2 tr1 tr2, R s1 s2 → R (with_trace tr1 s1) (with_trace tr2 s2)) →
  (∀ s1 s2 k, R s1 s2 → R (truncate k s1) (truncate k s2)) →
  (∀ s1 s2, R s1 s2 →
     match advance C s1, advance C s2 with
     | (Ok v1, s1'), (Ok v2, s2') =>
         v1 = v2 ∧ R (store (self_n s1) v1 s1') (store (self_n s2) v2 s2')
     | (Raise e1, _), (Raise e2, _) => e1 = e2
     | _, _ => False
     end) →
  ∀ steps, respects R R (time_loop C terminate steps).
Proof.
  intros Hlev Htr Htrunc Hadv. induction steps as [|steps IH]; intros s1 s2 HR.
  - done.
  - destruct (Hlev _ _ HR) as (Hu & Ht & Hn).
    pose proof (Hadv _ _ (Htr s1 s2 (self_trace s1 ++ [Advance (self_n s1)])
                            (self_trace s2 ++ [Advance (self_n s2)]) HR)) as Hstep.
    destruct (advance C (with_trace _ s1)) as [[v1|e1] s1'] eqn:H1,
             (advance C (with_trace _ s2)) as [[v2|e2] s2'] eqn:H2; try done.
    + destruct Hstep as [<- HR']. simpl in HR'.
      rewrite (time_loop_step _ _ _ _ _ _ H1), (time_loop_step _ _ _ _ _ _ H2).
      cbn zeta. fold (store (self_n s1) v1 s1') (store (self_n s2) v1 s2').
      destruct (Hlev _ _ HR') as (Hu' & Ht' & Hn').
      destruct terminate as [term|]; [|by apply IH].
      set (r1 := with_trace _ (store (self_n s1) v1 s1')).
      set (r2 := with_trace _ (store (self_n s2) v1 s2')).
      assert (HR3 : R r1 r2) by (by apply Htr).
      destruct (Hlev _ _ HR3) as (Hu3 & Ht3 & Hn3).
      replace (term (self_u r1) (self_t r1) (self_n s1 + 1))
        with (term (self_u r2) (self_t r2) (self_n s2 + 1)) by congruence.
      destruct (term _ _ _); [|by apply IH].
      split; [done|]. replace (self_n s1) with (self_n s2). by apply Htrunc.
    + rewrite (time_loop_raise _ _ _ _ _ _ H1), (time_loop_raise _ _ _ _ _ _ H2).
      done.
Qed.

Lemma agree_levels s1 s2 :
  agree s1 s2 →
  self_u s1 = self_u s2 ∧ self_t s1 = self_t s2 ∧ self_n s1 = self_n s2.
Proof. by intros (_ & ? & ? & ? & _). Qed.

Lemma agree_with_trace s1 s2 tr1 tr2 :
  agree s1 s2 → agree (with_trace tr1 s1) (with_trace tr2 s2).
Proof. done. Qed.

Lemma agree_truncate s1 s2 k :
  agree s1 s2 → agree (truncate k s1) (truncate k s2).
Proof.
  intros (Hin & Hu & Ht & Hn & Hst & Hf). unfold agree, truncate. simpl.
  by rewrite Hu, Ht.
Qed.

Lemma on_starter_eq {A} (m : M (Instance V) A) s st :
  self_starter s = Some st →
  on_starter m s = let '(r, st') := m st in (r, with_starter (Some st') s).
Proof. intros H. unfold on_starter. by rewrite H. Qed.

Lemma AdamsBashforth2_advance_agree s1 s2 :
  agree s1 s2 →
  match advance AB2 s1, advance AB2 s2 with
  | (Ok v1, s1'), (Ok v2, s2') =>
      v1 = v2 ∧ agree (store (self_n s1) v1 s1') (store (self_n s2) v2 s2')
  | (Raise e1, _), (Raise e2, _) => e1 = e2
  | _, _ => False
  end.
Proof.
  intros ((Hnm & Hp & Hf & HU0) & Hu & Ht & Hn & Hst & Hfn1).
  simpl. unfold AdamsBashforth2_advance. unfold_monad. simpl.
  rewrite <-Hu, <-Ht, <-Hn, <-Hf.
  destruct (bool_decide (1 ≤ self_n s1)) eqn:Hge.
  - apply bool_decide_eq_true in Hge.
    destruct (self_t s1 !! (self_n s1 + 1)) as [t_n1|]; simpl; [|done].
    destruct (self_t s1 !! self_n s1) as [t_n|]; simpl; [|done].
    destruct (self_u s1 !! self_n s1) as [u_n|]; simpl; [|done].
    unfold_monad. simpl. rewrite <-(Hfn1 Hge).
    destruct (self_f_n_1 s1) as [f_n_1|]; simpl; [|done].
    split; [done|]. unfold agree, same_inputs, store. simpl.
    by rewrite Hu.
  - clear Hfn1. rewrite <-Hst.
    destruct (self_starter s1) as [st|] eqn:Hst1; simpl; [|done].
    destruct (self_u s1 !! self_n s1) as [u_n|]; simpl; [|done].
    rewrite !(on_starter_eq _ _ st) by done.
    unfold set_initial_condition, modify. simpl.
    destruct (self_t s1 !! self_n s1) as [t_n|]; simpl; [|done].
    destruct (self_t s1 !! (self_n s1 + 1)) as [t_n1|]; simpl; [|done].
    rewrite !(on_starter_eq _ _ (with_U0 (Some u_n) st)) by done.
    destruct (solve_method methods [t_n; t_n1] None (with_U0 (Some u_n) st))
      as [[[u_starter t_starter]|e] st'] eqn:Hsolve; simpl; [|done].
    destruct (u_starter !! (length u_starter - 1)) as [unew|]; simpl; [|done].
    destruct (self_u s1 !! 0) as [u_0|]; simpl; [|done].
    destruct (self_t s1 !! 0) as [t_0|]; simpl; [|done].
    split; [done|]. unfold agree, same_inputs, store. simpl.
    by rewrite Hu.
Qed.

Lemma switch_to_same_inputs s1 s2 name overrides :
  self_parameters s1 = self_parameters s2 → self_f s1 = self_f s2 →
  switch_to registry methods s1 name overrides
  = switch_to registry methods s2 name overrides.
Proof.
  intros Hp Hf. unfold switch_to, name_of_f. by rewrite Hp, Hf.
Qed.

Lemma AdamsBashforth2_initialize_for_solve_respects :
  respects (λ s1 s2, same_inputs s1 s2 ∧ self_t s1 = self_t s2 ∧
                     self_n s1 = 0 ∧ self_n s2 = 0)
    agree (initialize_for_solve AB2).
Proof.
  intros s1 s2 ((Hnm & Hp & Hf & HU0) & Ht & Hn1 & Hn2).
  simpl. unfold AdamsBashforth2_initialize_for_solve. unfold_monad. simpl.
  rewrite <-Hp.
  destruct (self_parameters s1 !! "start_method") as [start_method|]; simpl; [|done].
  match goal with
  | |- context [match ?r with Ok _ => Solver_initialize_for_solve (with_starter _ (with_trace _ s2)) | Raise _ => _ end] =>
      replace r with
        (match start_method with
         | VStr name =>
             switch_to registry methods
               (with_trace (self_trace s1 ++ [Called "AdamsBashforth2.initialize_for_solve"]) s1)
               name []
         | _ => Raise (ValueError "start_method")
         end)
        by (destruct start_method; try done; by apply switch_to_same_inputs)
  end.
  match goal with
  | |- context [match ?r with Ok _ => Solver_initialize_for_solve _ | Raise _ => _ end] =>
      destruct r as [starter|e]; simpl; [|done]
  end.
  unfold Solver_initialize_for_solve. unfold_monad. simpl.
  rewrite <-HU0.
  destruct (self_U0 s1) as [U0|] eqn:HU01; simpl; [|done].
  rewrite <-Ht.
  destruct (replicate (length (self_t s1)) vzero) as [|z zs]; simpl; [done|].
  split; [done|]. unfold agree, same_inputs. simpl. split_and!; try done.
  - congruence.
  - congruence.
  - lia.
Qed.

Lemma AdamsBashforth2_validate_data_respects :
  respects agree agree (validate_data AB2).
Proof.
  intros s1 s2 Hag. simpl. rewrite !AdamsBashforth2_validate_data_eq.
  destruct (agree_levels _ _ Hag) as (_ & Ht & _). by rewrite Ht.
Qed.

Lemma solve_AdamsBashforth2_respects tp terminate :
  respects same_inputs agree (solve AB2 tp terminate).
Proof.
  unfold solve.
  apply (respects_bind _
           (λ s1 s2, same_inputs s1 s2 ∧ self_t s1 = self_t s2 ∧
                     self_n s1 = 0 ∧ self_n s2 = 0)).
  { by intros s1 s2 Hin. }
  intros _. apply (respects_bind _ agree).
  { apply AdamsBashforth2_initialize_for_solve_respects. }
  intros _. apply (respects_bind _ agree).
  { apply AdamsBashforth2_validate_data_respects. }
  intros valid. destruct valid; simpl.
  - apply (respects_bind _ agree).
    + apply time_loop_respects.
      * apply agree_levels.
      * apply agree_with_trace.
      * apply agree_truncate.
      * apply AdamsBashforth2_advance_agree.
    + intros _ s1 s2 Hag. unfold_monad. simpl.
      destruct (agree_levels _ _ Hag) as (Hu & Ht & _). by rewrite Hu, Ht.
  - intros s1 s2 Hag. unfold_monad. simpl.
    destruct Hag as ((Hnm & _) & _). by rewrite Hnm.
Qed.

(** C9.  Two runs of [solve] of [AdamsBashforth2] on the same time points
    and with the same [terminate], started from instances with the same
    class, configuration (starter included), right-hand side and initial
    condition, have the same outcome: the same arrays [(u, t)], or the same
    exception.  What an earlier run left in [u], [t], [n], [f_n], [f_n_1],
    [starter] or the record has no influence. *)
Theorem AdamsBashforth2_deterministic s1 s2 (time_points : list float) terminate :
  same_inputs s1 s2 →
  (solve AB2 time_points terminate s1).1 = (solve AB2 time_points terminate s2).1.
Proof.
  intros Hin. pose proof (solve_AdamsBashforth2_respects time_points terminate s1 s2 Hin) as H.
  destruct (solve AB2 time_points terminate s1) as [[a1|e1] s1'],
           (solve AB2 time_points terminate s2) as [[a2|e2] s2']; simpl; try done.
  - by destruct H as [-> _].
  - by rewrite H.
Qed.
End Determinism.

(** ** Parameters *)

Section Parameters.
Context {V : Type} `{!Snapshot V}.
Variable registry : gmap string ParameterSpec.
Implicit Types (s : Instance V) (C : Class V).




End Parameters.

(** ** [switch_to] *)

Section SwitchTo.
Context {V : Type} `{!Snapshot V}.
Variable registry : gmap string ParameterSpec.
Variable methods : string → option (Class V).
Implicit Types (s : Instance V) (C : Class V) (σ : gmap nat (Instance V)).






End SwitchTo.

(** ** The hooks of [AdamsBashforth2] and their parents *)

Section Hooks.

(** C8.  On three equal time points (constant spacing, not monotonic):
    [AdamsBashforth2.validate_data] accepts them, and its record shows only
    its own entry, while [Solver.validate_data], which it was to call,
    rejects them.  The override does not invoke its parent's version. *)
Theorem AdamsBashforth2_validate_data_skips_parent :
  AdamsBashforth2_validate_data stalled_instance
  = (Ok true, with_trace [Called "AdamsBashforth2.validate_data"] stalled_instance) ∧
  Solver_validate_data stalled_instance
  = (Ok false, with_trace [Called "Solver.validate_data"] stalled_instance).
Proof. split; reflexivity. Qed.
End Hooks.

Section HooksInGeneral.
Context {V : Type} `{!Snapshot V}.
Variable registry : gmap string ParameterSpec.
Variable methods : string → option (Class V).
Implicit Types (s : Instance V).

(** [AdamsBashforth2.validate_data] never enters [Solver.validate_data]:
    all it adds to the record is its own entry and, on failure, the line
    printed. *)
Lemma AdamsBashforth2_validate_data_trace s :
  ∃ events,
    self_trace (AdamsBashforth2_validate_data s).2 = self_trace s ++ events ∧
    Called "Solver.validate_data" ∉ events.
Proof.
  rewrite AdamsBashforth2_validate_data_eq. eexists. split; [done|].
  destruct (uniform (self_t s)); intros Hin;
    repeat (apply elem_of_cons in Hin as [?|Hin]; [done|]);
    by apply elem_of_nil in Hin.
Qed.

(** X13. [AdamsBashforth2.initialize_for_solve] does end with the version of
    [Solver]: whenever it returns, the storage is allocated with the initial
    condition in the first slot, and the record shows the parent's hook
    after its own. *)
Lemma AdamsBashforth2_initialize_for_solve_calls_parent s s' :
  AdamsBashforth2_initialize_for_solve registry methods s = (Ok tt, s') →
  ∃ U0 starter,
    self_U0 s = Some U0 ∧
    self_u s' = <[0 := U0]> (replicate (length (self_t s)) vzero) ∧
    self_starter s' = Some starter ∧
    self_trace s' = self_trace s ++ [Called "AdamsBashforth2.initialize_for_solve";
                                     Called "Solver.initialize_for_solve"].
Proof.
  unfold AdamsBashforth2_initialize_for_solve. unfold_monad. simpl.
  destruct (self_parameters s !! "start_method") as [start_method|]; simpl; [|done].
  match goal with
  | |- context [match ?r with Ok _ => Solver_initialize_for_solve _ | Raise _ => _ end] =>
      destruct r as [starter|e]; simpl; [|done]
  end.
  unfold Solver_initialize_for_solve. unfold_monad. simpl.
  destruct (self_U0 s) as [U0|]; simpl; [|done].
  destruct (replicate (length (self_t s)) vzero) as [|z zs] eqn:Hrep; simpl; [done|].
  intros [= <-]. exists U0, starter. simpl.
  by rewrite <-app_assoc.
Qed.
End HooksInGeneral.

(** ** The doc strings *)

Section DocStringFacts.

(** C10.  With two names bound to one class ([Euler] and [ForwardEuler]),
    the loop visits the class once per name: its doc string ends with the
    table of parameters twice.  The table of contents has one line per
    name, and the helper names are gone from the namespace. *)
Theorem update_doc_strings_patches_an_aliased_class_twice :
  update_doc_strings (λ _, "<table>") (λ _, "<toc>") "<tutorial>" aliased_module
  = Ok ({| namespace := <["Euler" := ClassRef 0]> (<["ForwardEuler" := ClassRef 0]> ∅);
           classes := <[0 := {| cls_doc := Some "Forward Euler scheme<table><table>";
                                quick_description := Some "The simple explicit (forward) Euler scheme" |}]> ∅;
           module_doc := "odespy<toc><tutorial>" |},
        [("Euler", "The simple explicit (forward) Euler scheme");
         ("ForwardEuler", "The simple explicit (forward) Euler scheme")]).
Proof. vm_compute. reflexivity. Qed.
End DocStringFacts.

(** ** Two runs in a row on one instance *)

Section RunsInARow.
Context {V : Type} `{!Snapshot V}.
Variable registry : gmap string ParameterSpec.
Variable methods : string → option (Class V).
Implicit Types (s : Instance V) (C : Class V).

Local Abbreviation AB2 := (AdamsBashforth2 registry methods).

Lemma AdamsBashforth2_advance_keeps_inputs s0 s :
  same_inputs s0 s → same_inputs s0 (advance AB2 s).2 ∧
  self_u (advance AB2 s).2 = self_u s ∧ self_n (advance AB2 s).2 = self_n s.
Proof.
  intros Hin. simpl. unfold AdamsBashforth2_advance. unfold_monad. simpl.
  destruct (bool_decide (1 ≤ self_n s)).
  - destruct (self_t s !! (self_n s + 1)) as [t_n1|]; simpl; [|done].
    destruct (self_t s !! self_n s) as [t_n|]; simpl; [|done].
    destruct (self_u s !! self_n s) as [u_n|]; simpl; [|done].
    unfold_monad. simpl.
    destruct (self_f_n_1 s) as [f_n_1|]; simpl; done.
  - destruct (self_starter s) as [st|] eqn:Hst; simpl; [|done].
    destruct (self_u s !! self_n s) as [u_n|]; simpl; [|done].
    rewrite !(on_starter_eq _ _ st) by done.
    unfold set_initial_condition, modify. simpl.
    destruct (self_t s !! self_n s) as [t_n|]; simpl; [|done].
    destruct (self_t s !! (self_n s + 1)) as [t_n1|]; simpl; [|done].
    rewrite !(on_starter_eq _ _ (with_U0 (Some u_n) st)) by done.
    destruct (solve_method methods [t_n; t_n1] None (with_U0 (Some u_n) st))
      as [[[u_starter t_starter]|e] st']; simpl; [|done].
    destruct (u_starter !! (length u_starter - 1)) as [unew|]; simpl; [|done].
    destruct (self_u s !! 0) as [u_0|]; simpl; [|done].
    destruct (self_t s !! 0) as [t_0|]; simpl; done.
Qed.

Lemma time_loop_keeps_inputs terminate steps s0 s :
  same_inputs s0 s → same_inputs s0 (time_loop AB2 terminate steps s).2.
Proof.
  revert s. induction steps as [|steps IH]; intros s Hin; [done|].
  destruct (AdamsBashforth2_advance_keeps_inputs s0
              (with_trace (self_trace s ++ [Advance (self_n s)]) s) Hin)
    as (Hin' & _ & _).
  destruct (advance AB2 (with_trace _ s)) as [[unew|e] s1] eqn:Hadv.
  - rewrite (time_loop_step _ _ _ _ _ _ Hadv). cbn zeta.
    destruct terminate as [term|]; [|by apply IH].
    destruct (term _ _ _); [done|]. by apply IH.
  - by rewrite (time_loop_raise _ _ _ _ _ _ Hadv).
Qed.

(** [solve] leaves the inputs of the run in place, whatever its outcome. *)
Lemma solve_AdamsBashforth2_keeps_inputs tp terminate s :
  same_inputs s (solve AB2 tp terminate s).2.
Proof.
  unfold solve. unfold_monad. simpl.
  unfold AdamsBashforth2_initialize_for_solve. unfold_monad. simpl.
  destruct (self_parameters s !! "start_method") as [start_method|]; simpl; [|done].
  match goal with
  | |- context [match ?r with Ok _ => Solver_initialize_for_solve _ | Raise _ => _ end] =>
      destruct r as [starter|e]; simpl; [|done]
  end.
  unfold Solver_initialize_for_solve. unfold_monad. simpl.
  destruct (self_U0 s) as [U0|] eqn:HU0; simpl; [|done].
  destruct (replicate (length tp) vzero) as [|z zs]; simpl; [done|].
  rewrite AdamsBashforth2_validate_data_eq. simpl.
  destruct (uniform tp); simpl; [|done].
  match goal with
  | |- context [time_loop _ _ _ ?s1] =>
      pose proof (time_loop_keeps_inputs terminate (length tp - 1) s s1) as Hloop;
      destruct (time_loop AB2 terminate (length tp - 1) s1) as [[[]|e] s2]
  end; simpl in *; apply Hloop; unfold same_inputs; simpl; by rewrite HU0.
Qed.

(** X14. A second run on the same instance, with the same time points and
    [terminate], repeats the outcome of the first. *)
Lemma AdamsBashforth2_second_run_repeats tp terminate s :
  (solve AB2 tp terminate (solve AB2 tp terminate s).2).1
  = (solve AB2 tp terminate s).1.
Proof.
  assert (Hsame : same_inputs (solve AB2 tp terminate s).2 s).
  { destruct (solve_AdamsBashforth2_keeps_inputs tp terminate s) as (? & ? & ? & ?).
    by repeat split. }
  pose proof (solve_AdamsBashforth2_respects registry methods tp terminate _ _ Hsame)
    as H.
  destruct (solve AB2 tp terminate (solve AB2 tp terminate s).2) as [[a1|e1] s1'],
           (solve AB2 tp terminate s) as [[a2|e2] s2']; simpl in *; try done.
  - by destruct H as [-> _].
  - by rewrite H.
Qed.
End RunsInARow.

(** ** The doc strings in general *)

Section DocStringsInGeneral.
Variable table_of_parameters : ClassObject → string.
Variable typeset_toc : list (string * string) → string.
Variable __tutorial__ : string.

(** [del] removes exactly the names it is given, and succeeds when each of
    them is bound at its turn. *)
Lemma del_lookup names (ns ns' : gmap string Binding) k :
  del names ns = Ok ns' →
  ns' !! k = if bool_decide (k ∈ names) then None else ns !! k.
Proof.
  revert ns. induction names as [|name names IH]; intros ns Hdel; simpl in Hdel.
  - by injection Hdel as <-.
  - destruct (ns !! name) eqn:Hname; [|done].
    rewrite (IH _ Hdel). destruct (decide (k = name)) as [->|Hne].
    + rewrite (bool_decide_eq_true_2 (name ∈ name :: names)) by apply list_elem_of_here.
      case_bool_decide; [done|]. apply lookup_delete_eq.
    + rewrite lookup_delete_ne by done.
      case_bool_decide as Hin.
      * by rewrite bool_decide_eq_true_2 by (by apply list_elem_of_further).
      * rewrite bool_decide_eq_false_2; [done|].
        intros [?|?]%elem_of_cons; done.
Qed.

(** X4. The namespace after the module-level statements: the helper names
    are unbound, every other name is bound as before. *)
Lemma update_doc_strings_namespace m m' toc k :
  update_doc_strings table_of_parameters typeset_toc __tutorial__ m = Ok (m', toc) →
  namespace m' !! k
  = if bool_decide (k ∈ helper_names) then None else namespace m !! k.
Proof.
  unfold update_doc_strings.
  destruct (patch_classes _ _ _ _) as [[heap toc']|e]; [|done].
  destruct (del helper_names _) as [ns4|e] eqn:Hdel; [|done].
  intros [= <- <-]. simpl. rewrite (del_lookup _ _ _ k Hdel).
  case_bool_decide as Hin; [done|].
  rewrite !lookup_insert_ne; [done|..]; intros <-; apply Hin; unfold helper_names;
    repeat (first [apply list_elem_of_here | apply list_elem_of_further]).
Qed.

(** One pass of the loop changes the doc string of the class it visits and
    nothing else: no class gains or loses [quick_description]. *)
Lemma patch_class_quick_description ns classname heap toc heap' toc' id :
  patch_class table_of_parameters ns classname (heap, toc) = Ok (heap', toc') →
  quick_description <$> heap' !! id = quick_description <$> heap !! id.
Proof.
  unfold patch_class.
  destruct (ns !! classname) as [[id'|]|]; try done.
  destruct (heap !! id') as [class_|] eqn:Hid'; [|done].
  destruct (cls_doc class_) as [doc_str|]; [|done]. simpl.
  destruct (quick_description class_) eqn:Hqd; intros [= <- <-];
    (destruct (decide (id' = id)) as [->|Hne];
     [rewrite lookup_insert_eq, Hid'; simpl; by rewrite Hqd
     |by rewrite lookup_insert_ne]).
Qed.

Lemma toc_line_ext ns heap heap' classname :
  (∀ id, quick_description <$> heap' !! id = quick_description <$> heap !! id) →
  toc_line ns heap' classname = toc_line ns heap classname.
Proof.
  intros Hqd. unfold toc_line.
  destruct (ns !! classname) as [[id|]|]; try done.
  specialize (Hqd id).
  destruct (heap' !! id) as [c'|], (heap !! id) as [c|]; simpl in *; try done.
  injection Hqd as Hqd. by rewrite Hqd.
Qed.

(** The table of contents lists, in the order of the loop, the names whose
    class has a [quick_description], each with that description. *)
Lemma patch_classes_toc ns classnames heap toc heap' toc' :
  patch_classes table_of_parameters ns classnames (heap, toc) = Ok (heap', toc') →
  toc' = toc ++ omap (toc_line ns heap) classnames.
Proof.
  revert heap toc. induction classnames as [|classname classnames IH];
    intros heap toc Hrun; cbn [patch_classes] in Hrun.
  - injection Hrun as <- <-. by rewrite app_nil_r.
  - destruct (patch_class _ ns classname (heap, toc)) as [[heap1 toc1]|e] eqn:Hone;
      [|done].
    rewrite (IH _ _ Hrun). simpl.
    assert (Hext : omap (toc_line ns heap1) classnames
                   = omap (toc_line ns heap) classnames).
    { apply list_omap_ext, Forall2_same_length_lookup. split; [done|].
      intros i c c' Hc Hc'. rewrite Hc in Hc'. injection Hc' as <-.
      apply toc_line_ext. intros id. by eapply patch_class_quick_description. }
    rewrite Hext. clear Hext IH Hrun.
    unfold patch_class in Hone. unfold toc_line.
    destruct (ns !! classname) as [[id|]|]; try done.
    destruct (heap !! id) as [class_|]; [|done].
    destruct (cls_doc class_) as [doc_str|]; [|done]. simpl in *.
    destruct (quick_description class_); injection Hone as <- <-; simpl.
    + by rewrite <-app_assoc.
    + done.
Qed.

Lemma patch_class_inv ns classname heap toc heap' toc' :
  patch_class table_of_parameters ns classname (heap, toc) = Ok (heap', toc') →
  ∃ id class_ doc_str,
    ns !! classname = Some (ClassRef id) ∧ heap !! id = Some class_ ∧
    cls_doc class_ = Some doc_str ∧
    heap' = <[id := patched table_of_parameters class_ doc_str]> heap.
Proof.
  unfold patch_class.
  destruct (ns !! classname) as [[id|]|]; try done.
  destruct (heap !! id) as [class_|] eqn:Hid; [|done].
  destruct (cls_doc class_) as [doc_str|] eqn:Hdoc; [|done]. simpl.
  intros Hok. exists id, class_, doc_str. split_and!; try done.
  unfold patched. by destruct (quick_description class_); injection Hok as <- _.
Qed.

(** When the names visited denote pairwise distinct classes, each of these
    classes has the table appended to its doc string once, and the other
    class objects are as before. *)
Lemma patch_classes_once ns classnames heap toc heap' toc' :
  patch_classes table_of_parameters ns classnames (heap, toc) = Ok (heap', toc') →
  NoDup (omap (bound_class ns) classnames) →
  (∀ classname, classname ∈ classnames →
     ∃ id class_ doc_str,
       ns !! classname = Some (ClassRef id) ∧ heap !! id = Some class_ ∧
       cls_doc class_ = Some doc_str ∧
       heap' !! id = Some (patched table_of_parameters class_ doc_str)) ∧
  (∀ id, id ∉ omap (bound_class ns) classnames → heap' !! id = heap !! id).
Proof.
  revert heap toc. induction classnames as [|classname classnames IH];
    intros heap toc Hrun Hnodup; cbn [patch_classes] in Hrun.
  - injection Hrun as <- <-. split; [|done]. by intros c ?%elem_of_nil.
  - destruct (patch_class _ ns classname (heap, toc)) as [[heap1 toc1]|e] eqn:Hone;
      [|done].
    destruct (patch_class_inv _ _ _ _ _ _ Hone) as (id & class_ & doc_str & Hns & Hid & Hdoc & ->).
    assert (Hb : bound_class ns classname = Some id) by (unfold bound_class; by rewrite Hns).
    simpl in Hnodup. rewrite Hb in Hnodup. simpl in Hnodup.
    apply NoDup_cons in Hnodup as [Hfresh Hnodup].
    destruct (IH _ _ Hrun Hnodup) as [Hvisited Hother].
    split.
    + intros c [->|Hc]%elem_of_cons.
      * exists id, class_, doc_str. split_and!; try done.
        rewrite (Hother id Hfresh). apply lookup_insert_eq.
      * destruct (Hvisited c Hc) as (id' & class' & doc' & Hns' & Hid' & Hdoc' & Hfin).
        assert (id' ≠ id).
        { intros ->. apply Hfresh, list_elem_of_omap. exists c. split; [done|].
          unfold bound_class. by rewrite Hns'. }
        rewrite lookup_insert_ne in Hid' by done.
        by exists id', class', doc'.
    + intros id' Hid'. simpl in Hid'. rewrite Hb in Hid'. simpl in Hid'.
      apply not_elem_of_cons in Hid' as [Hne Hid'].
      rewrite (Hother id' Hid'). by rewrite lookup_insert_ne.
Qed.

Lemma patch_classes_bound ns classnames heap toc heap' toc' classname :
  patch_classes table_of_parameters ns classnames (heap, toc) = Ok (heap', toc') →
  classname ∈ classnames → is_Some (bound_class ns classname).
Proof.
  revert heap toc. induction classnames as [|c classnames IH];
    intros heap toc Hrun Hin; cbn [patch_classes] in Hrun.
  - by apply elem_of_nil in Hin.
  - destruct (patch_class _ ns c (heap, toc)) as [[heap1 toc1]|e] eqn:Hone; [|done].
    apply elem_of_cons in Hin as [->|Hin]; [|by eapply IH].
    destruct (patch_class_inv _ _ _ _ _ _ Hone) as (id & _ & _ & Hns & _).
    unfold bound_class. by rewrite Hns.
Qed.

Lemma NoDup_omap {A B} (f : A → option B) (l : list A) :
  NoDup l →
  (∀ x y z, x ∈ l → y ∈ l → f x = Some z → f y = Some z → x = y) →
  NoDup (omap f l).
Proof.
  induction 1 as [|x l Hx Hl IH]; intros Hinj; simpl; [constructor|].
  assert (Hrest : NoDup (omap f l)).
  { apply IH. intros a b z Ha Hb. apply Hinj; by apply list_elem_of_further. }
  destruct (f x) as [z|] eqn:Hfx; [|done].
  apply NoDup_cons. split; [|done].
  intros (y & Hy & Hfy)%list_elem_of_omap.
  apply Hx. rewrite (Hinj x y z); try done.
  - apply list_elem_of_here.
  - by apply list_elem_of_further.
Qed.

(** X1. When no class is bound to two names, every class that the module
    binds to a name (other than the helper names) ends with the table
    appended to its doc string exactly once. *)
Lemma update_doc_strings_once m m' toc name id class_ :
  update_doc_strings table_of_parameters typeset_toc __tutorial__ m = Ok (m', toc) →
  one_name_per_class (namespace m) →
  name ∉ helper_names →
  namespace m !! name = Some (ClassRef id) → classes m !! id = Some class_ →
  ∃ doc_str, cls_doc class_ = Some doc_str ∧
             classes m' !! id = Some (patched table_of_parameters class_ doc_str).
Proof.
  unfold update_doc_strings.
  set (ns1 := <["classname" := Other]> (<["doc_str" := Other]>
              (<["class_" := Other]> (namespace m)))).
  set (ns3 := <["toc" := Other]> (<["classnames" := Other]> (<["obj" := Other]>
              (<["name" := Other]> ns1)))).
  set (classnames := (filter (λ item, inspect_isclass item.2) (map_to_list ns1)).*1).
  destruct (patch_classes _ ns3 classnames _) as [[heap toc']|e] eqn:Hrun; [|done].
  destruct (del helper_names ns3) as [ns4|e]; [|done].
  intros [= <- <-] Hone Hname Hns Hid. simpl.
  (* a name that denotes a class in [ns3] denotes it in the module *)
  assert (Hback : ∀ c i, ns3 !! c = Some (ClassRef i) → namespace m !! c = Some (ClassRef i)).
  { intros c i. unfold ns3, ns1.
    rewrite !lookup_insert. repeat case_decide; try done. }
  assert (Hfwd : ns3 !! name = Some (ClassRef id)).
  { unfold ns3, ns1. rewrite !lookup_insert_ne; [done|..]; intros <-; apply Hname;
      unfold helper_names;
      repeat (first [apply list_elem_of_here | apply list_elem_of_further]). }
  assert (Hin : name ∈ classnames).
  { unfold classnames. apply list_elem_of_fmap. exists (name, ClassRef id).
    split; [done|]. apply list_elem_of_filter. split; [done|].
    apply elem_of_map_to_list. unfold ns1.
    rewrite !lookup_insert_ne; [done|..]; intros <-; apply Hname;
      unfold helper_names;
      repeat (first [apply list_elem_of_here | apply list_elem_of_further]). }
  assert (Hnodup : NoDup (omap (bound_class ns3) classnames)).
  { apply NoDup_omap.
    - unfold classnames. apply (sublist_NoDup _ ((map_to_list ns1).*1)).
      + apply NoDup_fst_map_to_list.
      + apply fmap_sublist, sublist_filter.
    - intros x y z _ _ Hx Hy. unfold bound_class in Hx, Hy.
      destruct (ns3 !! x) as [[i|]|] eqn:Hx3; try done.
      destruct (ns3 !! y) as [[j|]|] eqn:Hy3; try done.
      injection Hx as ->. injection Hy as ->.
      eapply Hone; by apply Hback. }
  destruct (patch_classes_once _ _ _ _ _ _ Hrun Hnodup) as [Hvisited _].
  destruct (Hvisited name Hin) as (id' & class' & doc' & Hns' & Hid' & Hdoc' & Hfin).
  rewrite Hfwd in Hns'. injection Hns' as <-.
  rewrite Hid in Hid'. injection Hid' as <-.
  by exists doc'.
Qed.
End DocStringsInGeneral.

(** ** Forward Euler reads three values and writes none *)

Section ForwardEulerReads.
Context {V : Type} `{!Snapshot V}.
Implicit Types s : Instance V.

(** Whatever the outcome, [ForwardEuler.advance] leaves the instance as it
    was. *)
Lemma ForwardEuler_advance_mutates_nothing s : (ForwardEuler_advance s).2 = s.
Proof.
  unfold ForwardEuler_advance. unfold_monad. simpl.
  destruct (self_t s !! (self_n s + 1)); simpl; [|done].
  destruct (self_t s !! self_n s); simpl; [|done].
  by destruct (self_u s !! self_n s).
Qed.

(** The outcome is the same on any two instances that agree on [f],
    [u[n]], [t[n]] and [t[n+1]]. *)
Lemma ForwardEuler_advance_reads_three_values s1 s2 :
  self_f s1 = self_f s2 →
  self_u s1 !! self_n s1 = self_u s2 !! self_n s2 →
  self_t s1 !! self_n s1 = self_t s2 !! self_n s2 →
  self_t s1 !! (self_n s1 + 1) = self_t s2 !! (self_n s2 + 1) →
  (ForwardEuler_advance s1).1 = (ForwardEuler_advance s2).1.
Proof.
  intros Hf Hu Ht Ht1. unfold ForwardEuler_advance. unfold_monad. simpl.
  rewrite Hf, Hu, Ht, Ht1.
  destruct (self_t s2 !! (self_n s2 + 1)); simpl; [|done].
  destruct (self_t s2 !! self_n s2); simpl; [|done].
  by destruct (self_u s2 !! self_n s2).
Qed.
End ForwardEulerReads.

(** ** The doc strings: names, failures and the table of contents *)

Section DocStringsMore.
Variable table_of_parameters : ClassObject → string.
Variable typeset_toc : list (string * string) → string.
Variable __tutorial__ : string.

Lemma update_doc_strings_eq m :
  update_doc_strings table_of_parameters typeset_toc __tutorial__ m
  = match patch_classes table_of_parameters (namespace_at_loop (namespace m))
            (listed_classnames (namespace m)) (classes m, []) with
    | Raise e => Raise e
    | Ok (heap, toc) =>
        match del helper_names (namespace_at_loop (namespace m)) with
        | Raise e => Raise e
        | Ok ns4 =>
            Ok ({| namespace := ns4; classes := heap;
                   module_doc := module_doc m +:+ typeset_toc toc +:+ __tutorial__ |},
                toc)
        end
    end.
Proof. reflexivity. Qed.

Lemma namespace_at_listing_lookup ns name :
  namespace_at_listing ns !! name
  = if bool_decide (name ∈ rebound_names) then Some Other else ns !! name.
Proof.
  unfold namespace_at_listing, rebound_names.
  case_bool_decide as Hin.
  - rewrite !lookup_insert. repeat case_decide; try done.
    exfalso. repeat (apply elem_of_cons in Hin as [->|Hin]; [done|]).
    by apply elem_of_nil in Hin.
  - rewrite !lookup_insert_ne; [done|..]; intros <-; apply Hin;
      repeat (first [apply list_elem_of_here | apply list_elem_of_further]).
Qed.

Lemma namespace_at_loop_lookup ns name :
  namespace_at_loop ns !! name
  = if bool_decide (name ∈ ["toc"; "classnames"; "obj"; "name"]) then Some Other
    else namespace_at_listing ns !! name.
Proof.
  unfold namespace_at_loop.
  case_bool_decide as Hin.
  - rewrite !lookup_insert. repeat case_decide; try done.
    exfalso. repeat (apply elem_of_cons in Hin as [->|Hin]; [done|]).
    by apply elem_of_nil in Hin.
  - rewrite !lookup_insert_ne; [done|..]; intros <-; apply Hin;
      repeat (first [apply list_elem_of_here | apply list_elem_of_further]).
Qed.

(** A name that denotes a class for the loop denotes the same class in the
    module, and is not one that the first statement rebinds. *)
Lemma namespace_at_loop_class ns name id :
  namespace_at_loop ns !! name = Some (ClassRef id) →
  (name ∉ rebound_names) ∧ ns !! name = Some (ClassRef id).
Proof.
  rewrite namespace_at_loop_lookup, namespace_at_listing_lookup.
  repeat case_bool_decide; done.
Qed.

Lemma listed_classnames_elem ns name :
  name ∈ listed_classnames ns ↔
  (∃ id, namespace_at_listing ns !! name = Some (ClassRef id)).
Proof.
  unfold listed_classnames. rewrite list_elem_of_fmap. split.
  - intros ([name' b] & -> & [Hcls Hin%elem_of_map_to_list]%list_elem_of_filter).
    simpl in *. destruct b as [id|]; [|done]. by exists id.
  - intros [id Hid]. exists (name, ClassRef id). split; [done|].
    apply list_elem_of_filter. split; [done|]. by apply elem_of_map_to_list.
Qed.

Lemma listed_classnames_NoDup ns : NoDup (listed_classnames ns).
Proof.
  unfold listed_classnames.
  apply (sublist_NoDup _ ((map_to_list (namespace_at_listing ns)).*1)).
  - apply NoDup_fst_map_to_list.
  - apply fmap_sublist, sublist_filter.
Qed.

Lemma appended_succ_r k class_ :
  appended table_of_parameters (S k) class_
  = appended table_of_parameters k (appended table_of_parameters 1 class_).
Proof.
  induction k as [|k IH]; [done|].
  change (appended table_of_parameters (S (S k)) class_)
    with (let visited := appended table_of_parameters (S k) class_ in
          {| cls_doc := (λ doc_str, doc_str +:+ table_of_parameters visited)
                          <$> cls_doc visited;
             quick_description := quick_description visited |}).
  cbv zeta. by rewrite IH.
Qed.

(** The loop leaves a class as one visit per name of [classnames] that
    denotes it does. *)
Lemma patch_classes_appended ns classnames heap toc heap' toc' id class_ :
  patch_classes table_of_parameters ns classnames (heap, toc) = Ok (heap', toc') →
  heap !! id = Some class_ →
  heap' !! id
  = Some (appended table_of_parameters
            (length (filter (λ name, bound_class ns name = Some id) classnames))
            class_).
Proof.
  revert heap toc class_. induction classnames as [|classname classnames IH];
    intros heap toc class_ Hrun Hid; cbn [patch_classes] in Hrun.
  - by injection Hrun as <- <-.
  - destruct (patch_class _ ns classname (heap, toc)) as [[heap1 toc1]|e] eqn:Hone;
      [|done].
    destruct (patch_class_inv _ _ _ _ _ _ _ Hone)
      as (id0 & class0 & doc_str & Hns & Hid0 & Hdoc & ->).
    assert (Hb : bound_class ns classname = Some id0)
      by (unfold bound_class; by rewrite Hns).
    destruct (decide (id0 = id)) as [->|Hne].
    + rewrite filter_cons_True by done. cbn [length].
      rewrite Hid in Hid0. injection Hid0 as <-.
      rewrite appended_succ_r.
      rewrite (IH _ _ (patched table_of_parameters class_ doc_str) Hrun)
        by apply lookup_insert_eq.
      do 2 f_equal. unfold patched. simpl. by rewrite Hdoc.
    + rewrite filter_cons_False by (rewrite Hb; congruence).
      apply (IH _ _ _ Hrun). by rewrite lookup_insert_ne.
Qed.

(** X2. The table of parameters is appended to the doc string of a class
    once per name that denotes the class: if [names] lists these names
    without repetition, the class ends as [length names] visits of the loop
    leave it. *)
Lemma update_doc_strings_once_per_name m m' toc id class_ names :
  update_doc_strings table_of_parameters typeset_toc __tutorial__ m = Ok (m', toc) →
  classes m !! id = Some class_ →
  NoDup names →
  (∀ name, name ∈ names ↔
           (name ∉ rebound_names) ∧ namespace m !! name = Some (ClassRef id)) →
  classes m' !! id = Some (appended table_of_parameters (length names) class_).
Proof.
  rewrite update_doc_strings_eq.
  destruct (patch_classes _ _ _ _) as [[heap toc']|e] eqn:Hrun; [|done].
  destruct (del helper_names _) as [ns4|e]; [|done].
  intros [= <- <-] Hid Hnodup Hnames. simpl.
  rewrite (patch_classes_appended _ _ _ _ _ _ _ _ Hrun Hid). do 2 f_equal.
  apply Permutation_length, NoDup_Permutation; [|done|].
  - apply NoDup_filter, listed_classnames_NoDup.
  - intros name. rewrite list_elem_of_filter, Hnames, listed_classnames_elem.
    split.
    + intros [Hb _]. unfold bound_class in Hb.
      destruct (namespace_at_loop (namespace m) !! name) as [[id'|]|] eqn:Hloop;
        try done.
      injection Hb as ->. by apply namespace_at_loop_class.
    + intros [Hre Hns].
      assert (Hlist : namespace_at_listing (namespace m) !! name = Some (ClassRef id)).
      { rewrite namespace_at_listing_lookup. by rewrite bool_decide_eq_false_2. }
      split; [|by exists id].
      assert (Hin : name ∈ listed_classnames (namespace m))
        by (apply listed_classnames_elem; by exists id).
      destruct (patch_classes_bound _ _ _ _ _ _ _ _ Hrun Hin) as [id' Hb].
      rewrite Hb. f_equal. unfold bound_class in Hb.
      destruct (namespace_at_loop (namespace m) !! name) as [[id''|]|] eqn:Hloop;
        try done.
      injection Hb as ->.
      apply namespace_at_loop_class in Hloop as [_ Hloop]. congruence.
Qed.

Lemma toc_line_name ns heap classname line :
  toc_line ns heap classname = Some line → line.1 = classname.
Proof.
  unfold toc_line. destruct (ns !! classname) as [[id|]|]; try done.
  destruct (heap !! id ≫= quick_description); simpl; [|done]. by intros [= <-].
Qed.

Lemma toc_names_sublist ns heap classnames :
  (omap (toc_line ns heap) classnames).*1 `sublist_of` classnames.
Proof.
  induction classnames as [|classname classnames IH]; simpl; [done|].
  destruct (toc_line ns heap classname) as [line|] eqn:Hline; simpl.
  - rewrite (toc_line_name _ _ _ _ Hline). by apply sublist_skip.
  - by apply sublist_cons.
Qed.

(** X3. The table of contents has one line per name that denotes a class
    with a [quick_description], no name twice, and the module doc string is
    the old one followed by the typeset table and the tutorial. *)
Lemma update_doc_strings_toc m m' toc :
  update_doc_strings table_of_parameters typeset_toc __tutorial__ m = Ok (m', toc) →
  NoDup toc.*1 ∧
  module_doc m' = module_doc m +:+ typeset_toc toc +:+ __tutorial__ ∧
  ∀ name qd,
    (name, qd) ∈ toc ↔
    (name ∉ rebound_names) ∧
    ∃ id class_, namespace m !! name = Some (ClassRef id) ∧
                 classes m !! id = Some class_ ∧
                 quick_description class_ = Some qd.
Proof.
  rewrite update_doc_strings_eq.
  destruct (patch_classes _ _ _ _) as [[heap toc']|e] eqn:Hrun; [|done].
  destruct (del helper_names _) as [ns4|e]; [|done].
  intros [= <- <-]. simpl.
  pose proof (patch_classes_toc _ _ _ _ _ _ _ Hrun) as Htoc. simpl in Htoc.
  subst toc'. split_and!; [|done|].
  - eapply sublist_NoDup; [apply listed_classnames_NoDup|apply toc_names_sublist].
  - intros name qd. rewrite list_elem_of_omap. split.
    + intros (c & Hc & Hline).
      pose proof (toc_line_name _ _ _ _ Hline) as Hname. simpl in Hname. subst c.
      unfold toc_line in Hline.
      destruct (namespace_at_loop (namespace m) !! name) as [[id|]|] eqn:Hloop;
        try done.
      apply namespace_at_loop_class in Hloop as [Hre Hns]. split; [done|].
      destruct (classes m !! id) as [class_|] eqn:Hid; simpl in Hline; [|done].
      destruct (quick_description class_) as [qd'|] eqn:Hqd; simpl in Hline; [|done].
      injection Hline as <-. by exists id, class_.
    + intros (Hre & id & class_ & Hns & Hid & Hqd).
      assert (Hin : name ∈ listed_classnames (namespace m)).
      { apply listed_classnames_elem. exists id.
        rewrite namespace_at_listing_lookup. by rewrite bool_decide_eq_false_2. }
      exists name. split; [done|].
      destruct (patch_classes_bound _ _ _ _ _ _ _ _ Hrun Hin) as [id' Hb].
      unfold bound_class in Hb. unfold toc_line.
      destruct (namespace_at_loop (namespace m) !! name) as [[id''|]|] eqn:Hloop;
        try done.
      apply namespace_at_loop_class in Hloop as [_ Hloop].
      rewrite Hns in Hloop. injection Hloop as <-.
      rewrite Hid. simpl. by rewrite Hqd.
Qed.







End DocStringsMore.

(** ** Forward Euler: bounds and whole runs *)

Section ForwardEulerMore.
Context {V : Type} `{!Snapshot V}.
Implicit Types (s : Instance V).

(** X7. [ForwardEuler.advance] fails exactly when level [n] or [n + 1] is
    out of range, with an [IndexError]; whatever the outcome, the instance
    is left as it was. *)
Lemma ForwardEuler_advance_out_of_range s :
  (ForwardEuler_advance s).2 = s ∧
  match (ForwardEuler_advance s).1 with
  | Ok _ => step_in_range s
  | Raise e => e = IndexError ∧ ¬ step_in_range s
  end.
Proof.
  unfold ForwardEuler_advance, step_in_range. unfold_monad. simpl.
  destruct (self_t s !! (self_n s + 1)) as [t_n1|] eqn:Ht1; simpl.
  - apply lookup_lt_Some in Ht1.
    destruct (self_t s !! self_n s) as [t_n|] eqn:Ht; simpl.
    + destruct (self_u s !! self_n s) as [u_n|] eqn:Hu; simpl.
      * apply lookup_lt_Some in Hu. done.
      * apply lookup_ge_None in Hu. split_and!; try done. lia.
    + apply lookup_ge_None in Ht. lia.
  - apply lookup_ge_None in Ht1. split_and!; try done. lia.
Qed.

Lemma ForwardEuler_StepAdvancer_inv (f : V → float → V) :
  StepAdvancer ForwardEuler (ForwardEuler_inv f).
Proof.
  split; [by intros s tr [Hf Hrec]|]. intros s [Hf Hrec] Hn Hlen.
  destruct (lookup_lt_is_Some_2 (self_u s) (self_n s)) as [u_n Hu]; [lia|].
  destruct (lookup_lt_is_Some_2 (self_t s) (self_n s)) as [t_n Ht]; [lia|].
  destruct (lookup_lt_is_Some_2 (self_t s) (self_n s + 1)) as [t_n1 Ht1]; [lia|].
  eexists _, s. split; [by apply ForwardEuler_advance_eq|].
  split_and!; try done. split; [done|]. simpl. intros k Hk.
  destruct (decide (k = self_n s)) as [->|Hne].
  - exists u_n, t_n, t_n1. split_and!; try done.
    + rewrite list_lookup_insert_ne by lia. done.
    + rewrite Hf. apply list_lookup_insert_eq. lia.
  - destruct (Hrec k) as (u_k & t_k & t_k1 & Hu_k & Ht_k & Ht_k1 & Hnext); [lia|].
    exists u_k, t_k, t_k1. split_and!; try done.
    + by rewrite list_lookup_insert_ne by lia.
    + by rewrite list_lookup_insert_ne by lia.
Qed.

(** X8. A run of [solve] on a Forward Euler solver returns arrays in which
    every entry after the first follows from the one before it by the
    Forward Euler formula, whether the run went through all time points or
    was ended by [terminate]. *)
Lemma solve_ForwardEuler_recurrence s (U0 : V) (tp : list float)
    (terminate : option TerminateFn) :
  self_U0 s = Some U0 → tp ≠ [] → monotonic tp = true →
  ∃ u t s',
    solve ForwardEuler tp terminate s = (Ok (u, t), s') ∧
    u !! 0 = Some U0 ∧ length u = length t ∧ t `prefix_of` tp ∧
    ∀ k, k + 1 < length u → follows_ForwardEuler (self_f s) u t k.
Proof.
  intros HU0 Htp Hmono.
  rewrite (solve_inherited _ _ _ _ U0), Hmono by done.
  assert (Hpos : 0 < length tp) by (destruct tp; simpl; [done|lia]).
  set (s0 := prepared Solver_hooks s tp U0).
  assert (Hu0 : self_u s0 = <[0 := U0]> (replicate (length tp) vzero)) by done.
  assert (Ht0 : self_t s0 = tp) by done.
  assert (Hn0 : self_n s0 = 0) by done.
  assert (Hf0 : self_f s0 = self_f s) by done.
  clearbody s0.
  destruct (time_loop_spec ForwardEuler terminate _
              (ForwardEuler_StepAdvancer_inv (self_f s)) (length tp - 1) s0)
    as (m & sf & Hloop & Hm & _ & [_ Hrec] & Hnf & Htf & Hlf & Htk & _);
    [split; [done|]; rewrite Hn0; lia
    | by rewrite Hu0, Ht0, length_insert, length_replicate
    | rewrite Hn0, Ht0; lia |].
  rewrite Hn0, Ht0, Hu0, ?length_insert, ?length_replicate in *.
  simpl in Hloop, Hnf, Htk, Hlf.
  exists (take (m + 1) (self_u sf)), (take (m + 1) tp), (truncate (m + 1) sf).
  rewrite (bind_ok _ _ _ _ _ Hloop). unfold_monad. simpl.
  rewrite Htf. split_and!; try done.
  - apply (f_equal (λ l, l !! 0)) in Htk.
    rewrite lookup_take_lt in Htk by lia. rewrite lookup_take_lt by lia.
    rewrite Htk, lookup_take_lt by lia.
    apply list_lookup_insert_eq. by rewrite length_replicate.
  - rewrite !length_take. lia.
  - apply prefix_take.
  - intros k Hk. rewrite length_take in Hk.
    destruct (Hrec k) as (u_k & t_k & t_k1 & Hu_k & Ht_k & Ht_k1 & Hnext); [lia|].
    rewrite Htf in Ht_k, Ht_k1.
    exists u_k, t_k, t_k1. rewrite !lookup_take_lt by lia. done.
Qed.
End ForwardEulerMore.

(** ** Adams-Bashforth 2: single steps and hooks *)

Section AdamsBashforth2More.
Context {V : Type} `{!Snapshot V}.
Variable registry : gmap string ParameterSpec.
Variable methods : string → option (Class V).
Implicit Types (s : Instance V).

(** X9. Whatever its outcome, [AdamsBashforth2.advance] writes no attribute
    other than [f_n], [f_n_1] and the state of the starter: the arrays, the
    step index, the configuration and the record are left to [solve]. *)
Lemma AdamsBashforth2_advance_frame s :
  let s' := (AdamsBashforth2_advance methods s).2 in
  self_u s' = self_u s ∧ self_t s' = self_t s ∧ self_n s' = self_n s ∧
  self_name s' = self_name s ∧ self_parameters s' = self_parameters s ∧
  self_f s' = self_f s ∧ self_U0 s' = self_U0 s ∧ self_trace s' = self_trace s.
Proof.
  unfold AdamsBashforth2_advance. unfold_monad. simpl.
  destruct (bool_decide (1 ≤ self_n s)).
  - destruct (self_t s !! (self_n s + 1)) as [t_n1|]; simpl; [|done].
    destruct (self_t s !! self_n s) as [t_n|]; simpl; [|done].
    destruct (self_u s !! self_n s) as [u_n|]; simpl; [|done].
    unfold_monad. simpl.
    destruct (self_f_n_1 s) as [f_n_1|]; simpl; done.
  - destruct (self_starter s) as [st|] eqn:Hst; simpl; [|done].
    destruct (self_u s !! self_n s) as [u_n|]; simpl; [|done].
    rewrite !(on_starter_eq _ _ st) by done.
    unfold set_initial_condition, modify. simpl.
    destruct (self_t s !! self_n s) as [t_n|]; simpl; [|done].
    destruct (self_t s !! (self_n s + 1)) as [t_n1|]; simpl; [|done].
    rewrite !(on_starter_eq _ _ (with_U0 (Some u_n) st)) by done.
    destruct (solve_method methods [t_n; t_n1] None (with_U0 (Some u_n) st))
      as [[[u_starter t_starter]|e] st']; simpl; [|done].
    destruct (u_starter !! (length u_starter - 1)) as [unew|]; simpl; [|done].
    destruct (self_u s !! 0) as [u_0|]; simpl; [|done].
    destruct (self_t s !! 0) as [t_0|]; simpl; done.
Qed.

(** X10. After a step that returned, [f_n_1] holds the right-hand side at
    the level that the step started from, [f(u[n], t[n])], be it the first
    step or a later one. *)
Lemma AdamsBashforth2_advance_saves_rhs s s' (unew : V) :
  AdamsBashforth2_advance methods s = (Ok unew, s') →
  ∃ u_n t_n,
    self_u s !! self_n s = Some u_n ∧ self_t s !! self_n s = Some t_n ∧
    self_f_n_1 s' = Some (self_f s u_n t_n).
Proof.
  unfold AdamsBashforth2_advance. unfold_monad. simpl.
  destruct (bool_decide (1 ≤ self_n s)) eqn:Hn.
  - destruct (self_t s !! (self_n s + 1)) as [t_n1|]; simpl; [|done].
    destruct (self_t s !! self_n s) as [t_n|]; simpl; [|done].
    destruct (self_u s !! self_n s) as [u_n|]; simpl; [|done].
    unfold_monad. simpl.
    destruct (self_f_n_1 s) as [f_n_1|]; simpl; [|done].
    intros [= <- <-]. by exists u_n, t_n.
  - apply bool_decide_eq_false in Hn.
    assert (Hn0 : self_n s = 0) by lia. rewrite !Hn0.
    destruct (self_starter s) as [st|] eqn:Hst; simpl; [|done].
    destruct (self_u s !! 0) as [u_0|] eqn:Hu0; simpl; [|done].
    rewrite !(on_starter_eq _ _ st) by done.
    unfold set_initial_condition, modify. simpl.
    destruct (self_t s !! 0) as [t_0|] eqn:Ht0; simpl; [|done].
    destruct (self_t s !! 1) as [t_1|]; simpl; [|done].
    rewrite !(on_starter_eq _ _ (with_U0 (Some u_0) st)) by done.
    destruct (solve_method methods [t_0; t_1] None (with_U0 (Some u_0) st))
      as [[[u_starter t_starter]|e] st']; simpl; [|done].
    destruct (u_starter !! (length u_starter - 1)) as [v|]; simpl; [|done].
    intros [= <- <-]. by exists u_0, t_0.
Qed.

(** X11. A step by the formula ([n >= 1]) returns exactly when the levels it
    reads are in range and [f_n_1] has been assigned. Out of range it raises
    [IndexError] and changes nothing; with [f_n_1] missing it raises
    [AttributeError], after [f_n] has been assigned. *)
Lemma AdamsBashforth2_advance_formula_step s :
  1 ≤ self_n s →
  match AdamsBashforth2_advance methods s with
  | (Ok unew, s') =>
      ∃ u_n t_n t_n1 f_n_1,
        self_u s !! self_n s = Some u_n ∧ self_t s !! self_n s = Some t_n ∧
        self_t s !! (self_n s + 1) = Some t_n1 ∧ self_f_n_1 s = Some f_n_1 ∧
        unew = (u_n + ((t_n1 - t_n) / 2)%float
                      * (3%float * self_f s u_n t_n - f_n_1))%V ∧
        s' = with_f_n_1 (Some (self_f s u_n t_n))
               (with_f_n (Some (self_f s u_n t_n)) s)
  | (Raise e, s') =>
      (e = IndexError ∧ ¬ step_in_range s ∧ s' = s) ∨
      (e = AttributeError "f_n_1" ∧ step_in_range s ∧ self_f_n_1 s = None ∧
       ∃ u_n t_n, self_u s !! self_n s = Some u_n ∧
                  self_t s !! self_n s = Some t_n ∧
                  s' = with_f_n (Some (self_f s u_n t_n)) s)
  end.
Proof.
  intros Hn. unfold AdamsBashforth2_advance, step_in_range. unfold_monad. simpl.
  rewrite bool_decide_eq_true_2 by done.
  destruct (self_t s !! (self_n s + 1)) as [t_n1|] eqn:Ht1; simpl.
  2: { apply lookup_ge_None in Ht1. left. split_and!; try done. lia. }
  pose proof (lookup_lt_Some _ _ _ Ht1).
  destruct (self_t s !! self_n s) as [t_n|] eqn:Ht; simpl.
  2: { apply lookup_ge_None in Ht. lia. }
  destruct (self_u s !! self_n s) as [u_n|] eqn:Hu; simpl.
  2: { apply lookup_ge_None in Hu. left. split_and!; try done. lia. }
  pose proof (lookup_lt_Some _ _ _ Hu).
  unfold_monad. simpl.
  destruct (self_f_n_1 s) as [f_n_1|] eqn:Hf1; simpl.
  - exists u_n, t_n, t_n1, f_n_1. done.
  - right. split_and!; try done. by exists u_n, t_n.
Qed.

End AdamsBashforth2More.

(** ** Not-a-number values *)

Section FloatFacts.

Lemma SFeqb_refl_nan x : SFeqb x x = false → x = S754_nan.
Proof.
  unfold SFeqb. destruct x as [[]|[]| |[] m e]; simpl; try done.
  - rewrite Z.compare_refl, Pos.compare_cont_refl. done.
  - rewrite Z.compare_refl, Pos.compare_cont_refl. done.
Qed.

Lemma is_nan_Prim2SF x : PrimFloat.is_nan x = true ↔ Prim2SF x = S754_nan.
Proof.
  unfold PrimFloat.is_nan. rewrite FloatAxioms.eqb_spec. split.
  - intros Hnan. apply SFeqb_refl_nan. by destruct (SFeqb _ _).
  - by intros ->.
Qed.

Lemma is_nan_add_l x y : PrimFloat.is_nan x = true → PrimFloat.is_nan (x + y) = true.
Proof.
  rewrite !is_nan_Prim2SF, FloatAxioms.add_spec. by intros ->.
Qed.
End FloatFacts.

Section TerminateFacts.

(** X15. The tolerance test of the decay example never answers [True] for an
    entry that is NaN, against a tolerance that is NaN, or against a
    negative tolerance: such a run is not ended by [terminate]. *)
Lemma terminate_decay_never_true tol u t step_no x :
  u !! step_no = Some x →
  PrimFloat.is_nan x = true ∨ PrimFloat.is_nan tol = true
  ∨ PrimFloat.ltb tol 0 = true →
  terminate_decay tol u t step_no = Ok false.
Proof.
  intros Hx Hnever. unfold terminate_decay. rewrite Hx.
  rewrite FloatAxioms.leb_spec, FloatAxioms.abs_spec.
  destruct Hnever as [Hnan%is_nan_Prim2SF|[Hnan%is_nan_Prim2SF|Hneg]].
  - by rewrite Hnan.
  - rewrite Hnan. unfold SFleb. simpl.
    by destruct (SFabs (Prim2SF x)) as [[]|[]| |[] m e].
  - rewrite FloatAxioms.ltb_spec in Hneg.
    change (Prim2SF 0) with (S754_zero false) in Hneg.
    destruct (Prim2SF tol) as [[]|[]| |[] m e]; try done;
      by destruct (Prim2SF x) as [[]|[]| |[] m' e'].
Qed.
End TerminateFacts.

Section NotANumber.
Implicit Types s : Instance float.

(** X16. For a scalar ODE, a step from an entry that is NaN gives NaN,
    whatever the right-hand side returns: with Forward Euler, and with the
    formula of Adams-Bashforth. *)
Lemma advance_propagates_nan (methods : string → option (Class float)) s u_n :
  self_u s !! self_n s = Some u_n → PrimFloat.is_nan u_n = true →
  (∀ unew, (ForwardEuler_advance s).1 = Ok unew → PrimFloat.is_nan unew = true) ∧
  (1 ≤ self_n s →
   ∀ unew, (AdamsBashforth2_advance methods s).1 = Ok unew →
           PrimFloat.is_nan unew = true).
Proof.
  intros Hu Hnan. split.
  - intros unew. unfold ForwardEuler_advance. unfold_monad. simpl.
    destruct (self_t s !! (self_n s + 1)) as [t_n1|]; simpl; [|done].
    destruct (self_t s !! self_n s) as [t_n|]; simpl; [|done].
    rewrite Hu. simpl. intros [= <-]. by apply is_nan_add_l.
  - intros Hn unew. unfold AdamsBashforth2_advance. unfold_monad. simpl.
    rewrite bool_decide_eq_true_2 by done.
    destruct (self_t s !! (self_n s + 1)) as [t_n1|]; simpl; [|done].
    destruct (self_t s !! self_n s) as [t_n|]; simpl; [|done].
    rewrite Hu. simpl. unfold_monad. simpl.
    destruct (self_f_n_1 s) as [f_n_1|]; simpl; [|done].
    intros [= <-]. by apply is_nan_add_l.
Qed.
End NotANumber.

(** ** The statements at sample inputs *)

Section Samples.
Local Open Scope float_scope.

Lemma ForwardEuler_advance_formula_witness :
  ForwardEuler_advance
    (with_u [1; 0.5; 0] (with_t [0; 0.5; 1] (with_n 1 sample_ForwardEuler)))
  = (Ok (0.5 + (1 - 0.5) * decay 0.5 0.5)%float,
     with_u [1; 0.5; 0] (with_t [0; 0.5; 1] (with_n 1 sample_ForwardEuler))).
Proof.
  exact (ForwardEuler_advance_formula
           (with_u [1; 0.5; 0] (with_t [0; 0.5; 1] (with_n 1 sample_ForwardEuler)))
           0.5 0.5 1 eq_refl eq_refl eq_refl).
Defined.

Lemma solve_returns_every_time_point_witness :
  ∃ u s',
    solve ForwardEuler [0; 0.5; 1; 1.5] None sample_ForwardEuler
      = (Ok (u, [0; 0.5; 1; 1.5]), s') ∧
    length u = 4%nat ∧ u !! 0%nat = Some 1 ∧
    self_u s' = u ∧ self_t s' = [0; 0.5; 1; 1.5].
Proof.
  refine (solve_returns_every_time_point ForwardEuler sample_ForwardEuler 1
           [0; 0.5; 1; 1.5] _ _ _ _ _).
  - apply ForwardEuler_inherits_hooks.
  - apply ForwardEuler_StepAdvancer.
  - reflexivity.
  - discriminate.
  - reflexivity.
Defined.

Lemma solve_asks_terminate_after_every_step_witness :
  ∃ m u s',
    solve ForwardEuler [0; 0.5; 1; 1.5; 2] (Some (below 0.25)) sample_ForwardEuler
      = (Ok (take (m + 1) u, take (m + 1) [0; 0.5; 1; 1.5; 2]), s') ∧
    (m ≤ 4)%nat ∧ ((1 < 5)%nat → (1 ≤ m)%nat) ∧
    length u = 5%nat ∧
    length (take (m + 1) u) = (m + 1)%nat ∧
    length (take (m + 1) [0; 0.5; 1; 1.5; 2]) = (m + 1)%nat ∧
    self_trace s' = [] ++ Solver_hooks ++ loop_events (Some (below 0.25)) 0 m ∧
    (∀ j, (1 ≤ j < m)%nat →
       below 0.25 (take (j + 1) u ++ replicate (5 - (j + 1)) 0) [0; 0.5; 1; 1.5; 2] j
       = false) ∧
    ((m < 4)%nat →
       below 0.25 (take (m + 1) u ++ replicate (5 - (m + 1)) 0) [0; 0.5; 1; 1.5; 2] m
       = true).
Proof.
  refine (solve_asks_terminate_after_every_step ForwardEuler sample_ForwardEuler 1
           [0; 0.5; 1; 1.5; 2] (below 0.25) _ _ _ _ _).
  - apply ForwardEuler_inherits_hooks.
  - apply ForwardEuler_StepAdvancer.
  - reflexivity.
  - discriminate.
  - reflexivity.
Defined.

Lemma ForwardEuler_parameters_registered p :
  p ∈ parameter_names (ForwardEuler (V:=float)) → is_Some (_parameters !! p).
Proof.
  intros Hp.
  repeat (apply elem_of_cons in Hp as [->|Hp]; [by eexists|]).
  by apply elem_of_nil in Hp.
Qed.



Lemma AdamsBashforth2_starter_then_formula_witness :
  ∃ u s' u_starter starter',
    solve (AdamsBashforth2 _parameters sample_methods) [0; 0.5; 1; 1.5] None
      sample_AdamsBashforth2 = (Ok (u, [0; 0.5; 1; 1.5]), s') ∧
    length u = length [0; 0.5; 1; 1.5] ∧ u !! 0%nat = Some 1 ∧
    solve ForwardEuler [0; 0.5] None
      (with_U0 (Some 1) (new_instance _parameters ForwardEuler sample_AdamsBashforth2))
      = (Ok (u_starter, [0; 0.5]), starter') ∧
    length u_starter = 2%nat ∧ u_starter !! 0%nat = Some 1 ∧
    u !! 1%nat = u_starter !! 1%nat ∧
    self_trace starter' = Solver_hooks ++ [Advance 0] ∧
    self_starter s' = Some starter' ∧
    ∀ n, (1 ≤ n)%nat → (n + 1 < 4)%nat →
         follows_formula decay u [0; 0.5; 1; 1.5] n.
Proof.
  refine (AdamsBashforth2_starter_then_formula _parameters sample_methods
           sample_AdamsBashforth2 ForwardEuler "Euler" 1 [0; 0.5; 1; 1.5] 0 0.5 _ _ _ _ _ _ _ _ _ _ _).
  - reflexivity.
  - reflexivity.
  - reflexivity.
  - apply ForwardEuler_parameters_registered.
  - apply ForwardEuler_inherits_hooks.
  - apply ForwardEuler_StepAdvancer.
  - reflexivity.
  - reflexivity.
  - reflexivity.
  - reflexivity.
  - reflexivity.
Defined.


Lemma AdamsBashforth2_deterministic_witness :
  (solve (AdamsBashforth2 _parameters sample_methods) [0; 0.5; 1; 1.5] None
     sample_AdamsBashforth2).1
  = (solve (AdamsBashforth2 _parameters sample_methods) [0; 0.5; 1; 1.5] None
       used_AdamsBashforth2).1.
Proof.
  apply (AdamsBashforth2_deterministic _parameters sample_methods
           sample_AdamsBashforth2 used_AdamsBashforth2 [0; 0.5; 1; 1.5] None).
  repeat split.
Defined.
End Samples.

Section DocStringSamples.
Lemma sample_module_patched_eq :
  update_doc_strings (λ _, "<table>") (λ _, "<toc>") "<tutorial>" sample_module
  = Ok (sample_module_patched, sample_toc).
Proof. vm_compute. reflexivity. Qed.

Lemma sample_module_one_name_per_class : one_name_per_class (namespace sample_module).
Proof.
  intros name1 name2 id H1 H2. simpl in H1, H2.
  rewrite !lookup_insert in H1, H2.
  repeat case_decide; simplify_eq; done.
Qed.


Lemma update_doc_strings_once_witness :
  ∃ doc_str,
    cls_doc {| cls_doc := Some "Forward Euler scheme";
               quick_description := Some "The simple explicit (forward) Euler scheme" |}
    = Some doc_str ∧
    classes sample_module_patched !! 0
    = Some (patched (λ _, "<table>")
              {| cls_doc := Some "Forward Euler scheme";
                 quick_description := Some "The simple explicit (forward) Euler scheme" |}
              doc_str).
Proof.
  refine (update_doc_strings_once (λ _, "<table>") (λ _, "<toc>") "<tutorial>"
            sample_module sample_module_patched sample_toc "ForwardEuler" 0 _
            _ _ _ _ _).
  - exact sample_module_patched_eq.
  - exact sample_module_one_name_per_class.
  - apply (bool_decide_unpack _). vm_compute. exact I.
  - vm_compute. reflexivity.
  - vm_compute. reflexivity.
Defined.

Lemma update_doc_strings_namespace_witness :
  namespace sample_module_patched !! "inspect"
  = (if bool_decide ("inspect" ∈ helper_names) then None
     else namespace sample_module !! "inspect").
Proof.
  exact (update_doc_strings_namespace (λ _, "<table>") (λ _, "<toc>") "<tutorial>"
           sample_module sample_module_patched sample_toc "inspect"
           sample_module_patched_eq).
Defined.

Lemma update_doc_strings_toc_witness :
  NoDup sample_toc.*1 ∧
  module_doc sample_module_patched
  = module_doc sample_module +:+ (λ _ : list (string * string), "<toc>") sample_toc
    +:+ "<tutorial>" ∧
  ∀ name qd,
    (name, qd) ∈ sample_toc ↔
    (name ∉ rebound_names) ∧
    ∃ id class_, namespace sample_module !! name = Some (ClassRef id) ∧
                 classes sample_module !! id = Some class_ ∧
                 quick_description class_ = Some qd.
Proof.
  exact (update_doc_strings_toc (λ _, "<table>") (λ _, "<toc>") "<tutorial>"
           sample_module sample_module_patched sample_toc
           sample_module_patched_eq).
Defined.

Lemma aliased_module_patched_eq :
  update_doc_strings (λ _, "<table>") (λ _, "<toc>") "<tutorial>" aliased_module
  = Ok (aliased_module_patched,
        [("Euler", "The simple explicit (forward) Euler scheme");
         ("ForwardEuler", "The simple explicit (forward) Euler scheme")]).
Proof. vm_compute. reflexivity. Qed.

Lemma aliased_module_names name :
  name ∈ ["Euler"; "ForwardEuler"] ↔
  (name ∉ rebound_names) ∧ namespace aliased_module !! name = Some (ClassRef 0).
Proof.
  split.
  - intros Hin.
    repeat (apply elem_of_cons in Hin as [->|Hin];
            [split; [apply (bool_decide_unpack _); by vm_compute
                    |vm_compute; reflexivity]|]).
    by apply elem_of_nil in Hin.
  - intros [_ Hns]. simpl in Hns. rewrite !lookup_insert in Hns.
    repeat case_decide; simplify_eq;
      repeat (first [apply list_elem_of_here | apply list_elem_of_further]).
Qed.

Lemma update_doc_strings_once_per_name_witness :
  classes aliased_module_patched !! 0
  = Some (appended (λ _, "<table>") (length ["Euler"; "ForwardEuler"])
            {| cls_doc := Some "Forward Euler scheme";
               quick_description := Some "The simple explicit (forward) Euler scheme" |}).
Proof.
  refine (update_doc_strings_once_per_name (λ _, "<table>") (λ _, "<toc>")
            "<tutorial>" aliased_module aliased_module_patched _ 0 _
            ["Euler"; "ForwardEuler"] _ _ _ _).
  - exact aliased_module_patched_eq.
  - vm_compute. reflexivity.
  - apply (bool_decide_unpack _). vm_compute. exact I.
  - exact aliased_module_names.
Defined.



End DocStringSamples.

Section StepSamples.
Local Open Scope float_scope.

Lemma AdamsBashforth2_advance_saves_rhs_witness :
  ∃ u_n t_n,
    self_u midrun_AdamsBashforth2 !! self_n midrun_AdamsBashforth2 = Some u_n ∧
    self_t midrun_AdamsBashforth2 !! self_n midrun_AdamsBashforth2 = Some t_n ∧
    self_f_n_1 (with_f_n_1 (Some (-0.5)) (with_f_n (Some (-0.5)) midrun_AdamsBashforth2))
    = Some (self_f midrun_AdamsBashforth2 u_n t_n).
Proof.
  refine (AdamsBashforth2_advance_saves_rhs sample_methods midrun_AdamsBashforth2
            (with_f_n_1 (Some (-0.5)) (with_f_n (Some (-0.5)) midrun_AdamsBashforth2))
            0.375 _).
  vm_compute. reflexivity.
Defined.

Lemma AdamsBashforth2_advance_formula_step_witness :
  match AdamsBashforth2_advance sample_methods midrun_AdamsBashforth2 with
  | (Ok unew, s') =>
      ∃ u_n t_n t_n1 f_n_1,
        self_u midrun_AdamsBashforth2 !! self_n midrun_AdamsBashforth2 = Some u_n ∧
        self_t midrun_AdamsBashforth2 !! self_n midrun_AdamsBashforth2 = Some t_n ∧
        self_t midrun_AdamsBashforth2 !! (self_n midrun_AdamsBashforth2 + 1)%nat = Some t_n1 ∧
        self_f_n_1 midrun_AdamsBashforth2 = Some f_n_1 ∧
        unew = (u_n + ((t_n1 - t_n) / 2)%float
                      * (3%float * self_f midrun_AdamsBashforth2 u_n t_n - f_n_1))%V ∧
        s' = with_f_n_1 (Some (self_f midrun_AdamsBashforth2 u_n t_n))
               (with_f_n (Some (self_f midrun_AdamsBashforth2 u_n t_n)) midrun_AdamsBashforth2)
  | (Raise e, s') =>
      (e = IndexError ∧ ¬ step_in_range midrun_AdamsBashforth2 ∧ s' = midrun_AdamsBashforth2) ∨
      (e = AttributeError "f_n_1" ∧ step_in_range midrun_AdamsBashforth2 ∧
       self_f_n_1 midrun_AdamsBashforth2 = None ∧
       ∃ u_n t_n, self_u midrun_AdamsBashforth2 !! self_n midrun_AdamsBashforth2 = Some u_n ∧
                  self_t midrun_AdamsBashforth2 !! self_n midrun_AdamsBashforth2 = Some t_n ∧
                  s' = with_f_n (Some (self_f midrun_AdamsBashforth2 u_n t_n))
                         midrun_AdamsBashforth2)
  end.
Proof.
  refine (AdamsBashforth2_advance_formula_step sample_methods midrun_AdamsBashforth2 _).
  simpl. lia.
Defined.

Lemma solve_ForwardEuler_recurrence_witness :
  ∃ u t s',
    solve ForwardEuler [0; 0.5; 1] None sample_ForwardEuler = (Ok (u, t), s') ∧
    u !! 0%nat = Some 1 ∧ length u = length t ∧ t `prefix_of` [0; 0.5; 1] ∧
    ∀ k, (k + 1 < length u)%nat →
         follows_ForwardEuler (self_f sample_ForwardEuler) u t k.
Proof.
  refine (solve_ForwardEuler_recurrence sample_ForwardEuler 1 [0; 0.5; 1] None _ _ _).
  - reflexivity.
  - done.
  - vm_compute. reflexivity.
Defined.

Lemma AdamsBashforth2_initialize_for_solve_calls_parent_witness :
  ∃ U0 starter,
    self_U0 midrun_AdamsBashforth2 = Some U0 ∧
    self_u (AdamsBashforth2_initialize_for_solve _parameters sample_methods
              midrun_AdamsBashforth2).2
    = <[0%nat := U0]> (replicate (length (self_t midrun_AdamsBashforth2)) vzero) ∧
    self_starter (AdamsBashforth2_initialize_for_solve _parameters sample_methods
                    midrun_AdamsBashforth2).2 = Some starter ∧
    self_trace (AdamsBashforth2_initialize_for_solve _parameters sample_methods
                  midrun_AdamsBashforth2).2
    = self_trace midrun_AdamsBashforth2
      ++ [Called "AdamsBashforth2.initialize_for_solve";
          Called "Solver.initialize_for_solve"].
Proof.
  refine (AdamsBashforth2_initialize_for_solve_calls_parent _parameters sample_methods
            midrun_AdamsBashforth2 _ _).
  vm_compute. reflexivity.
Defined.

Lemma terminate_decay_never_true_witness :
  terminate_decay 0.125 [1; nan] [0; 0.5] 1 = Ok false.
Proof.
  refine (terminate_decay_never_true 0.125 [1; nan] [0; 0.5] 1 nan _ _).
  - reflexivity.
  - left. reflexivity.
Defined.

Lemma advance_propagates_nan_witness :
  (∀ unew, (ForwardEuler_advance blown_up_AdamsBashforth2).1 = Ok unew →
           PrimFloat.is_nan unew = true) ∧
  ((1 ≤ self_n blown_up_AdamsBashforth2)%nat →
   ∀ unew, (AdamsBashforth2_advance sample_methods blown_up_AdamsBashforth2).1
           = Ok unew →
           PrimFloat.is_nan unew = true).
Proof.
  refine (advance_propagates_nan sample_methods blown_up_AdamsBashforth2 nan _ _).
  - reflexivity.
  - reflexivity.
Defined.
End StepSamples.
